(** * Resume_Tailor: the section / bullet extraction-and-splice engine

    A shallow embedding of [bullet_utils.py], [llm_utils.py] and [tailor.py].

    Python [str] values are lists of Unicode code points.  The regular
    expressions of the program are values of a small regex syntax, run by a
    backtracking matcher that enumerates the matches of a pattern in the order
    in which Python's [re] tries them; [re.search], [re.match], [re.findall]
    and [re.sub] are defined on top of it.  The language-model call is a
    function that either answers or raises; where the state of the service
    matters, it is threaded through the calls. *)

From Stdlib Require Import List NArith Arith Lia Bool String Ascii.
Import ListNotations.

(* ================================================================== *)
(** * Python strings *)
(* ================================================================== *)

Module Py.

Definition char := N.
Definition str := list char.

Local Open Scope N_scope.

(** ASCII literals of the source, as code points. *)
Definition of_string (s : string) : str :=
  map N_of_ascii (list_ascii_of_string s).

Definition LF : char := 10.
Definition CR : char := 13.

Definition in_range (lo hi c : char) : bool :=
  (N.leb lo c) && (N.leb c hi).

(** [str.isspace] on one code point, which is also the class [\s] of a
    [str] pattern. *)
Definition isspace (c : char) : bool :=
  in_range 0x09 0x0D c || in_range 0x1C 0x1F c || N.eqb c 0x20
  || N.eqb c 0x85 || N.eqb c 0xA0 || N.eqb c 0x1680
  || in_range 0x2000 0x200A c || N.eqb c 0x2028 || N.eqb c 0x2029
  || N.eqb c 0x202F || N.eqb c 0x205F || N.eqb c 0x3000.

(** The line boundaries of [str.splitlines]. *)
Definition is_linebreak (c : char) : bool :=
  in_range 0x0A 0x0D c || in_range 0x1C 0x1E c
  || N.eqb c 0x85 || N.eqb c 0x2028 || N.eqb c 0x2029.

(** Case folding as [re.IGNORECASE] applies it to a [str] pattern, on the
    code points that fold into ASCII letters: A-Z, and the four non-ASCII
    letters U+0130, U+0131 (to i), U+017F (to s) and U+212A (to k).  Other
    code points are left alone: the literals of this program are ASCII. *)
Definition fold_case (c : char) : char :=
  if in_range 0x41 0x5A c then c + 32
  else if N.eqb c 0x130 || N.eqb c 0x131 then 0x69
  else if N.eqb c 0x17F then 0x73
  else if N.eqb c 0x212A then 0x6B
  else c.

Fixpoint lstrip (s : str) : str :=
  match s with
  | c :: s' => if isspace c then lstrip s' else s
  | [] => []
  end.

Definition rstrip (s : str) : str := rev (lstrip (rev s)).

(** [s.strip()] *)
Definition strip (s : str) : str := rstrip (lstrip s).

(** [s.splitlines()]: a line ends at a line boundary, CR LF counts as one
    boundary, the boundaries are dropped, and no empty last line is produced
    for a string that ends with a boundary. *)
Fixpoint splitlines (s : str) : list str :=
  match s with
  | [] => []
  | c :: s' =>
      if is_linebreak c then
        match s' with
        | d :: s'' =>
            if N.eqb c CR && N.eqb d LF then [] :: splitlines s''
            else [] :: splitlines s'
        | [] => [[]]
        end
      else
        match splitlines s' with
        | [] => [[c]]
        | l :: ls => (c :: l) :: ls
        end
  end.

(** [sep.join(parts)] *)
Fixpoint join (sep : str) (parts : list str) : str :=
  match parts with
  | [] => []
  | p :: ps =>
      match ps with
      | [] => p
      | _ :: _ => p ++ sep ++ join sep ps
      end
  end.

(** [s[a:b]] for [0 <= a], [0 <= b]. *)
Definition slice (s : str) (a b : nat) : str :=
  firstn (b - a)%nat (skipn a s).

(** A call either returns or raises. *)
Inductive outcome (A : Type) : Type :=
| Ok (a : A)
| Raised (e : str).
Arguments Ok {A} a.
Arguments Raised {A} e.

Definition bind {A B : Type} (x : outcome A) (f : A -> outcome B) : outcome B :=
  match x with
  | Ok a => f a
  | Raised e => Raised e
  end.

End Py.

Import Py.

Notation "x <- c1 ;; c2" := (bind c1 (fun x => c2))
  (at level 61, c1 at next level, right associativity).

(* ================================================================== *)
(** * The fragment of [re] the program uses *)
(* ================================================================== *)

Module Re.

(** Quantifiers are applied to one-character classes only, as in every
    pattern of the program.  Flags are resolved in the syntax: a literal
    carries whether it is compared under IGNORECASE, [^] whether MULTILINE
    is on, and a class is given by its membership test. *)
Inductive regex : Type :=
| Empty
| Lit (ignorecase : bool) (c : char)
| Cls (p : char -> bool)
| Caret (multiline : bool)
| EndZ
| Seq (r1 r2 : regex)
| Alt (r1 r2 : regex)
| Star (greedy : bool) (p : char -> bool)
| Group (g : nat) (r : regex)
| Ahead (r : regex).

(** [p+] and [p+?] *)
Definition Plus (greedy : bool) (p : char -> bool) : regex :=
  Seq (Cls p) (Star greedy p).

(** A literal string, such as the result of [re.escape]. *)
Fixpoint Lits (ignorecase : bool) (s : str) : regex :=
  match s with
  | [] => Empty
  | c :: s' => Seq (Lit ignorecase c) (Lits ignorecase s')
  end.

(** [.] without DOTALL *)
Definition dot (c : char) : bool := negb (N.eqb c LF).

Definition lit_matches (ignorecase : bool) (c d : char) : bool :=
  if ignorecase then N.eqb (fold_case c) (fold_case d) else N.eqb c d.

(** A position of the matcher in the subject: the offset, the character
    before it, the text after it, and the groups closed so far (latest
    first). *)
Record state : Type := mkState {
  pos : nat;
  prev : option char;
  rest : str;
  caps : list (nat * (nat * nat))
}.

Definition set_cap (g : nat) (a : nat) (st : state) : state :=
  mkState (pos st) (prev st) (rest st) ((g, (a, pos st)) :: caps st).

(** The positions reached by [p*?] from offset [i], fewest repetitions
    first. *)
Fixpoint star_states (p : char -> bool) (i : nat) (pv : option char)
    (l : str) (cs : list (nat * (nat * nat))) : list state :=
  mkState i pv l cs ::
  match l with
  | c :: l' => if p c then star_states p (S i) (Some c) l' cs else []
  | [] => []
  end.

(** The position greedy [p*] tries first: after the longest run of [p]. *)
Fixpoint star_end (p : char -> bool) (i : nat) (pv : option char)
    (l : str) (cs : list (nat * (nat * nat))) : state :=
  match l with
  | c :: l' => if p c then star_end p (S i) (Some c) l' cs else mkState i pv l cs
  | [] => mkState i pv [] cs
  end.

(** All the ways [r] matches at [st], in the order in which a backtracking
    matcher finds them; the first is the match [re] reports. *)
Fixpoint run (r : regex) (st : state) : list state :=
  match r with
  | Empty => [st]
  | Lit ic c =>
      match rest st with
      | d :: l' =>
          if lit_matches ic c d
          then [mkState (S (pos st)) (Some d) l' (caps st)] else []
      | [] => []
      end
  | Cls p =>
      match rest st with
      | d :: l' =>
          if p d then [mkState (S (pos st)) (Some d) l' (caps st)] else []
      | [] => []
      end
  | Caret multiline =>
      match prev st with
      | None => [st]
      | Some d => if multiline && N.eqb d LF then [st] else []
      end
  | EndZ =>
      match rest st with
      | [] => [st]
      | _ :: _ => []
      end
  | Seq r1 r2 => flat_map (run r2) (run r1 st)
  | Alt r1 r2 => run r1 st ++ run r2 st
  | Star greedy p =>
      let sts := star_states p (pos st) (prev st) (rest st) (caps st) in
      if greedy then rev sts else sts
  | Group g r1 => map (set_cap g (pos st)) (run r1 st)
  | Ahead r1 =>
      match run r1 st with
      | [] => []
      | _ :: _ => [st]
      end
  end.

(** A match object: the subject, the span of the whole match and the spans
    of the groups. *)
Record Match : Type := mkMatch {
  m_string : str;
  m_start : nat;
  m_end : nat;
  m_caps : list (nat * (nat * nat))
}.

Fixpoint assoc (g : nat) (cs : list (nat * (nat * nat))) : option (nat * nat) :=
  match cs with
  | [] => None
  | (g', sp) :: cs' => if Nat.eqb g g' then Some sp else assoc g cs'
  end.

Definition span (m : Match) (g : nat) : option (nat * nat) :=
  match g with
  | O => Some (m_start m, m_end m)
  | S _ => assoc g (m_caps m)
  end.

(** [m.group(g)]; every group of the patterns below takes part in every
    match, so the [None] of an unset group does not arise. *)
Definition group (m : Match) (g : nat) : str :=
  match span m g with
  | Some (a, b) => slice (m_string m) a b
  | None => []
  end.

Definition match_at (r : regex) (s : str) (i : nat) (pv : option char)
    (l : str) : option Match :=
  match run r (mkState i pv l []) with
  | st :: _ => Some (mkMatch s i (pos st) (caps st))
  | [] => None
  end.

(** [re.match(r, s)] *)
Definition re_match (r : regex) (s : str) : option Match :=
  match_at r s 0 None s.

Fixpoint search_from (r : regex) (s : str) (i : nat) (pv : option char)
    (l : str) : option Match :=
  match match_at r s i pv l with
  | Some m => Some m
  | None =>
      match l with
      | c :: l' => search_from r s (S i) (Some c) l'
      | [] => None
      end
  end.

(** [re.search(r, s)] *)
Definition search (r : regex) (s : str) : option Match :=
  search_from r s 0 None s.

(** The scan shared by [re.finditer], [re.findall] and [re.sub]: the
    leftmost match, then the leftmost match after its end, and so on.
    [skip] counts the characters still covered by the previous match.  After
    an empty match the scan resumes one character further; no pattern of the
    program matches the empty string. *)
Fixpoint finditer_from (r : regex) (s : str) (skip : nat) (i : nat)
    (pv : option char) (l : str) : list Match :=
  match skip with
  | S n =>
      match l with
      | c :: l' => finditer_from r s n (S i) (Some c) l'
      | [] => []
      end
  | O =>
      match match_at r s i pv l with
      | Some m =>
          m :: match l with
               | c :: l' =>
                   finditer_from r s (m_end m - i - 1) (S i) (Some c) l'
               | [] => []
               end
      | None =>
          match l with
          | c :: l' => finditer_from r s 0 (S i) (Some c) l'
          | [] => []
          end
      end
  end.

Definition finditer (r : regex) (s : str) : list Match :=
  finditer_from r s 0 0 None s.

(** [re.findall(r, s)] for a pattern without groups *)
Definition findall (r : regex) (s : str) : list str :=
  map (fun m => group m 0) (finditer r s).

(** The output of [re.sub]: the text between the matches is copied, each
    match is replaced by [repl] of its match object. *)
Fixpoint subst (repl : Match -> str) (s : str) (last : nat)
    (ms : list Match) : str :=
  match ms with
  | [] => skipn last s
  | m :: ms' =>
      slice s last (m_start m) ++ repl m ++ subst repl s (m_end m) ms'
  end.

(** [re.sub(r, repl, s)] with a function [repl] *)
Definition sub (r : regex) (repl : Match -> str) (s : str) : str :=
  subst repl s 0 (finditer r s).

Definition is_match (o : option Match) : bool :=
  match o with
  | Some _ => true
  | None => false
  end.

End Re.

Import Re.

(* ================================================================== *)
(** * bullet_utils.py *)
(* ================================================================== *)

Module BulletUtils.

(** The named groups of the section pattern. *)
Definition header : nat := 1.
Definition body : nat := 2.

(** [[A-Z]] and [[A-Z ]] under IGNORECASE *)
Definition upper_i (c : char) : bool := in_range 0x61%N 0x7A%N (fold_case c).
Definition upper_or_space_i (c : char) : bool := upper_i c || N.eqb c 0x20%N.

(** [[\t ]] and [[-\*\u2022]] *)
Definition tab_or_space (c : char) : bool := N.eqb c 0x09%N || N.eqb c 0x20%N.
Definition glyph (c : char) : bool :=
  N.eqb c 0x2D%N || N.eqb c 0x2A%N || N.eqb c 0x2022%N.

(** [(?mi)(?P<header>NAME\s*\n)(?P<body>.*?)(?=\n[A-Z][A-Z ]+\n|\Z)] with
    [NAME = re.escape(section_name)] *)
Definition section_pattern (section_name : str) : regex :=
  Seq (Group header
         (Seq (Lits true section_name)
              (Seq (Star true isspace) (Lit true LF))))
      (Seq (Group body (Star false dot))
           (Ahead (Alt (Seq (Lit true LF)
                            (Seq (Cls upper_i)
                                 (Seq (Plus true upper_or_space_i)
                                      (Lit true LF))))
                       EndZ))).

Definition extract_section (resume section_name : str) : str :=
  match search (section_pattern section_name) resume with
  | Some m => group m body
  | None => []
  end.

Definition replace_section (resume section_name new_body : str) : str :=
  let _repl := fun m => group m header ++ new_body in
  sub (section_pattern section_name) _repl resume.

(** [^[\t ]*(?:[-\*\u2022])\s+.*]; [multiline] is [flags=re.MULTILINE] *)
Definition bullet_pattern (multiline : bool) : regex :=
  Seq (Caret multiline)
      (Seq (Star true tab_or_space)
           (Seq (Cls glyph)
                (Seq (Plus true isspace) (Star true dot)))).

Definition extract_bullets (section_text : str) : list str :=
  findall (bullet_pattern true) section_text.

(** The test of the loop of [replace_bullets] on one line *)
Definition is_bullet_line (line : str) : bool :=
  is_match (re_match (bullet_pattern false) line).

(** The [for] loop of [replace_bullets]: the state is [(out_lines, bi)]. *)
Fixpoint for_lines (new_bullets : list str) (lines : list str)
    (out_lines : list str) (bi : nat) : list str * nat :=
  match lines with
  | [] => (out_lines, bi)
  | line :: lines' =>
      if is_bullet_line line then
        if bi <? List.length new_bullets then
          for_lines new_bullets lines' (out_lines ++ [nth bi new_bullets []])
            (S bi)
        else for_lines new_bullets lines' (out_lines ++ [line]) bi
      else for_lines new_bullets lines' (out_lines ++ [line]) bi
  end.

(** The [while bi < len(new_bullets)] loop; [n] is the number of iterations
    left, [len(new_bullets) - bi]. *)
Fixpoint while_surplus (new_bullets : list str) (n : nat)
    (out_lines : list str) (bi : nat) : list str :=
  match n with
  | O => out_lines
  | S n' =>
      while_surplus new_bullets n' (out_lines ++ [nth bi new_bullets []])
        (S bi)
  end.

Definition replace_bullets (section_text : str) (new_bullets : list str) : str :=
  let lines := splitlines section_text in
  let '(out_lines, bi) := for_lines new_bullets lines [] 0 in
  let out_lines :=
    while_surplus new_bullets (List.length new_bullets - bi) out_lines bi in
  join [LF] out_lines.

End BulletUtils.

Import BulletUtils.

(* ================================================================== *)
(** * llm_utils.py *)
(* ================================================================== *)

Module LlmUtils.

(** [prompt_template.format(job_description=..., bullet=...)] *)
Definition prompt_format (job_description bullet : str) : str :=
  of_string "You are a resume" ++ [0x2010%N]
  ++ of_string "tailoring assistant. Given a job description and one of the applicant"
  ++ [0x2019%N] ++ of_string "s bullet points," ++ [LF]
  ++ of_string "rewrite the bullet so that it aligns more directly with the job description"
  ++ [0x2019%N] ++ of_string "s language and requirements," ++ [LF]
  ++ of_string "without inventing any new experience or changing the core meaning. Preserve the level of seniority and"
  ++ [LF]
  ++ of_string "responsibilities exactly as written; only adjust phrasing and keywords."
  ++ [LF; LF]
  ++ of_string "Job Description:" ++ [LF] ++ job_description ++ [LF; LF]
  ++ of_string "Original Bullet Point:" ++ [LF] ++ bullet ++ [LF; LF]
  ++ of_string "Rewritten Bullet Point (do not add new details):".

(** [(?i)^Rewritten Bullet Point:\s*] *)
Definition label_pattern : regex :=
  Seq (Caret false)
      (Seq (Lits true (of_string "Rewritten Bullet Point:"))
           (Star true isspace)).

(** [^(M)(R)] with [M = [\t ]*(?:[-\*\u2022])\s+] and [R = .*]: the bullet
    pattern with two groups.  Group 1 is the marker, from the start of the
    line to the end of the white space after the glyph; group 2 is the rest
    of the line. *)
Definition marker_pattern : regex :=
  Seq (Caret false)
      (Seq (Group 1
              (Seq (Star true tab_or_space)
                   (Seq (Cls glyph) (Plus true isspace))))
           (Group 2 (Star true dot))).

Section WithService.

(** The Ollama client: given the prompt, it answers or raises. *)
Variable llm : str -> outcome str.

Definition align_bullet (job_desc bullet : str) : outcome str :=
  let prompt := prompt_format job_desc bullet in
  answer <- llm prompt ;;
  let rewritten := strip answer in
  let rewritten := sub label_pattern (fun _ => []) rewritten in
  Ok rewritten.

(** [(prefix, core)] of one bullet *)
Definition split_bullet (b : str) : str * str :=
  match re_match marker_pattern b with
  | Some m => (group m 1, strip (group m 2))
  | None => (of_string "- ", strip b)
  end.

(** The loop of [align_bullets_to_job]; [aligned] is the list built so
    far. *)
Fixpoint for_bullets (job_desc : str) (bullets : list str)
    (aligned : list str) : outcome (list str) :=
  match bullets with
  | [] => Ok aligned
  | b :: bs =>
      let '(prefix, core) := split_bullet b in
      new_core <- align_bullet job_desc core ;;
      for_bullets job_desc bs (aligned ++ [prefix ++ new_core])
  end.

Definition align_bullets_to_job (job_desc : str) (bullets : list str)
  : outcome (list str) :=
  for_bullets job_desc bullets [].

End WithService.

(** The same two functions with the service as the remote component it is.
    A call is made in a state of the service and leaves it in another, so
    that one prompt may be answered by a call and refused by the next.  A
    call gives what [llm(prompt)] does, an answer or an exception, and the
    state of the service after it. *)
Module Stateful.

Section WithService.

Variable World : Type.
Variable llm : str -> World -> outcome str * World.

Definition align_bullet (job_desc bullet : str) (w : World)
  : outcome str * World :=
  let prompt := prompt_format job_desc bullet in
  match llm prompt w with
  | (Ok answer, w') =>
      let rewritten := strip answer in
      let rewritten := sub label_pattern (fun _ => []) rewritten in
      (Ok rewritten, w')
  | (Raised e, w') => (Raised e, w')
  end.

Fixpoint for_bullets (job_desc : str) (bullets : list str)
    (aligned : list str) (w : World) : outcome (list str) * World :=
  match bullets with
  | [] => (Ok aligned, w)
  | b :: bs =>
      let '(prefix, core) := split_bullet b in
      match align_bullet job_desc core w with
      | (Ok new_core, w') =>
          for_bullets job_desc bs (aligned ++ [prefix ++ new_core]) w'
      | (Raised e, w') => (Raised e, w')
      end
  end.

Definition align_bullets_to_job (job_desc : str) (bullets : list str)
    (w : World) : outcome (list str) * World :=
  for_bullets job_desc bullets [] w.

End WithService.

Arguments align_bullet {World} llm job_desc bullet w.
Arguments for_bullets {World} llm job_desc bullets aligned w.
Arguments align_bullets_to_job {World} llm job_desc bullets w.

End Stateful.

End LlmUtils.

Import LlmUtils.

(* ================================================================== *)
(** * tailor.py *)
(* ================================================================== *)

Module Tailor.

Definition section_names : list str :=
  [of_string "Work Experience"; of_string "Projects"].

Section WithRewriter.

(** The rewriting stage called by the loop, [align_bullets_to_job] in the
    program. *)
Variable rewrite : str -> list str -> outcome (list str).

(** One iteration of the loop over the section names; [continue] keeps
    [tailored]. *)
Definition section_step (job_description tailored section_name : str)
  : outcome str :=
  let original_section_body := extract_section tailored section_name in
  match strip original_section_body with
  | [] => Ok tailored
  | _ :: _ =>
      let old_bullets := extract_bullets original_section_body in
      match old_bullets with
      | [] => Ok tailored
      | _ :: _ =>
          new_bullets <- rewrite job_description old_bullets ;;
          let new_section_body :=
            replace_bullets original_section_body new_bullets in
          Ok (replace_section tailored section_name new_section_body)
      end
  end.

Fixpoint for_sections (job_description : str) (names : list str)
    (tailored : str) : outcome str :=
  match names with
  | [] => Ok tailored
  | section_name :: names' =>
      tailored' <- section_step job_description tailored section_name ;;
      for_sections job_description names' tailored'
  end.

(** The body of [tailor_resume_file] after the text has been loaded *)
Definition tailor_text (resume_text job_description : str) : outcome str :=
  for_sections job_description section_names resume_text.

End WithRewriter.

(** [tailor_resume_file]; [load_resume_text] reads the file, [llm] is the
    service. *)
Definition tailor_resume_file (load_resume_text : str -> outcome str)
    (llm : str -> outcome str) (resume_path job_description : str)
  : outcome str :=
  resume_text <- load_resume_text resume_path ;;
  tailor_text (align_bullets_to_job llm) resume_text job_description.

End Tailor.

Import Tailor.

(* ================================================================== *)
(** * resume_loader.py *)
(* ================================================================== *)

Module ResumeLoader.

(** [a == b] on [str] values *)
Fixpoint eqb_str (a b : str) : bool :=
  match a, b with
  | [], [] => true
  | c :: a', d :: b' => N.eqb c d && eqb_str a' b'
  | _, _ => false
  end.

Definition extsep : char := 0x2E%N.

(** The last component of a path: what follows the last separator. *)
Fixpoint basename (is_sep : char -> bool) (p : str) : str :=
  match p with
  | [] => []
  | c :: p' =>
      if existsb is_sep p' then basename is_sep p'
      else if is_sep c then p' else c :: p'
  end.

Fixpoint drop_dots (name : str) : str :=
  match name with
  | c :: name' => if N.eqb c extsep then drop_dots name' else name
  | [] => []
  end.

(** The text from the last period of [s] on, empty when there is none. *)
Fixpoint last_dot_suffix (s : str) : str :=
  match s with
  | [] => []
  | c :: s' =>
      match last_dot_suffix s' with
      | [] => if N.eqb c extsep then c :: s' else []
      | e => e
      end
  end.

(** [os.path.splitext(p)[1]]: the extension is what follows the last
    period of the last component, that period included; the leading
    periods of the component are not counted.  [is_sep] tells the path
    separators of the platform (os.sep and os.altsep). *)
Definition splitext_ext (is_sep : char -> bool) (p : str) : str :=
  last_dot_suffix (drop_dots (basename is_sep p)).

Section WithLibraries.

(** The separators of [os.path]. *)
Variable is_sep : char -> bool.

(** [str.lower] *)
Variable lower : str -> str.

(** [PyPDF2.PdfReader(f).pages] of the file at a path, and
    [page.extract_text()]. *)
Variable page : Type.
Variable pdf_pages : str -> outcome (list page).
Variable extract_text : page -> outcome (option str).

(** [docx2txt.process] *)
Variable docx2txt_process : str -> outcome str.

(** The loop of [_load_pdf_text]; [extract_text() or ""] is the empty text
    for a page without text. *)
Fixpoint for_pages (pages : list page) (text_pages : list str)
  : outcome (list str) :=
  match pages with
  | [] => Ok text_pages
  | pg :: pages' =>
      t <- extract_text pg ;;
      for_pages pages'
        (text_pages ++ [match t with Some s => s | None => [] end])
  end.

Definition _load_pdf_text (pdf_path : str) : outcome str :=
  pages <- pdf_pages pdf_path ;;
  text_pages <- for_pages pages [] ;;
  Ok (join [LF] text_pages).

Definition _load_docx_text (docx_path : str) : outcome str :=
  docx2txt_process docx_path.

(** The message of the [ValueError] *)
Definition unsupported (ext : str) : str :=
  of_string "Unsupported resume format: " ++ ext
  ++ of_string ". Please provide a .pdf or .docx file.".

Definition load_resume_text (file_path : str) : outcome str :=
  let ext := lower (splitext_ext is_sep file_path) in
  if eqb_str ext (of_string ".pdf") then _load_pdf_text file_path
  else if eqb_str ext (of_string ".docx") then _load_docx_text file_path
  else Raised (unsupported ext).

End WithLibraries.

(** [str.lower] on ASCII text *)
Definition ascii_lower (s : str) : str :=
  map (fun c => if in_range 0x41%N 0x5A%N c then (c + 32)%N else c) s.

Definition is_ascii (s : str) : bool := forallb (fun c => N.ltb c 128%N) s.

End ResumeLoader.

Import ResumeLoader.

(* ================================================================== *)
(** * Vocabulary of the statements *)
(* ================================================================== *)

Module Vocabulary.

(** A document written line by line: the lines joined by line feeds. *)
Definition text (lines : list string) : str := join [LF] (map of_string lines).

(** The number of leading characters of [s] in the class [p]. *)
Fixpoint span_len (p : char -> bool) (s : str) : nat :=
  match s with
  | c :: s' => if p c then S (span_len p s') else 0
  | [] => 0
  end.

(** The marker rule in the words of the specification (4.3): after leading
    tabs and spaces, a marker glyph followed by at least one white-space
    character.  The result is the length of the marker prefix: the indent,
    the glyph and the white space after it. *)
Definition spec_marker_length (line : str) : option nat :=
  let i := span_len tab_or_space line in
  match skipn i line with
  | g :: w :: r =>
      if glyph g && isspace w then Some (i + 2 + span_len isspace r) else None
  | _ => None
  end.

(** The marker part of the bullet pattern: [[\t ]*], a glyph, [\s+]. *)
Definition marker_part : regex :=
  Seq (Star true tab_or_space) (Seq (Cls glyph) (Plus true isspace)).

(** The number of bullet lines before line [j]: the rank of line [j] among
    the bullet lines when line [j] is one. *)
Definition rank (lines : list str) (j : nat) : nat :=
  List.length (filter is_bullet_line (firstn j lines)).

Definition bullet_count (lines : list str) : nat :=
  List.length (filter is_bullet_line lines).

(** Every line boundary of [s] is a line feed. *)
Definition only_LF_breaks (s : str) : bool :=
  forallb (fun c => negb (is_linebreak c) || N.eqb c LF) s.

(** The last character of [s] is in the class [p]. *)
Fixpoint ends_in (p : char -> bool) (s : str) : bool :=
  match s with
  | [] => false
  | c :: s' =>
      match s' with
      | [] => p c
      | _ :: _ => ends_in p s'
      end
  end.

Definition is_LF (c : char) : bool := N.eqb c LF.

(** A service that answers every prompt. *)
Definition answers (f : str -> str) : str -> outcome str :=
  fun prompt => Ok (f prompt).

(** A service that is down. *)
Definition unreachable (e : str) : str -> outcome str :=
  fun _ => Raised e.

(** A service that fails on the prompts that mention a scraper. *)
Definition flaky (prompt : str) : outcome str :=
  match search (Lits false (of_string "scraper")) prompt with
  | Some _ => Raised (of_string "timeout")
  | None => Ok (of_string "Rewritten Bullet Point: Led engineers")
  end.

(** The rewriting stage that returns its bullets as they are. *)
Definition identity_rewriter (job_desc : str) (bullets : list str)
  : outcome (list str) := Ok bullets.

Definition is_prefix (p s : str) : Prop := exists r, s = p ++ r.

(** The line the rewriter builds for the bullet [b] when the service
    answers: the prefix of [b] and the rewritten core. *)
Definition rewritten_line (llm : str -> outcome str) (job_desc b : str) : str :=
  match align_bullet llm job_desc (snd (split_bullet b)) with
  | Ok new_core => fst (split_bullet b) ++ new_core
  | Raised _ => []
  end.

(** [s] holds no line feed. *)
Definition no_LF (s : str) : bool := forallb dot s.

(** [s] holds no line boundary of [splitlines]. *)
Definition no_linebreak (s : str) : bool :=
  forallb (fun c => negb (is_linebreak c)) s.

(** [^] under MULTILINE holds after [pv]: at the start of the subject or
    after a line feed. *)
Definition line_start (pv : option char) : bool :=
  match pv with
  | None => true
  | Some d => N.eqb d LF
  end.

(** [s] starts with the literal [w], compared as [Lits ignorecase w]
    compares it. *)
Fixpoint starts_with (ignorecase : bool) (w s : str) : bool :=
  match w with
  | [] => true
  | c :: w' =>
      match s with
      | d :: s' => lit_matches ignorecase c d && starts_with ignorecase w' s'
      | [] => false
      end
  end.

(** The label a model may echo before its answer. *)
Definition label : str := of_string "Rewritten Bullet Point:".

(** The last character of [s], if any. *)
Fixpoint last_char (s : str) : option char :=
  match s with
  | [] => None
  | c :: s' =>
      match s' with
      | [] => Some c
      | _ :: _ => last_char s'
      end
  end.

(** An answer of the service as [align_bullet] hands it on: without the
    white space at its ends, and without the label at its start, in any
    case, and the white space after the label. *)
Definition cleaned (answer : str) : str :=
  if starts_with true label (strip answer)
  then lstrip (skipn (List.length label) (strip answer))
  else strip answer.

(** The prompt of the call made for the bullet [b]. *)
Definition prompt_of (job_desc b : str) : str :=
  prompt_format job_desc (snd (split_bullet b)).

(** The service answers the calls [prompts], made one after the other from
    the state [w]: the answers, and the state after the last call. *)
Fixpoint answered {World : Type} (llm : str -> World -> outcome str * World)
    (prompts : list str) (w : World) : option (list str * World) :=
  match prompts with
  | [] => Some ([], w)
  | p :: ps =>
      match llm p w with
      | (Ok a, w') =>
          match answered llm ps w' with
          | Some (al, w'') => Some (a :: al, w'')
          | None => None
          end
      | (Raised _, _) => None
      end
  end.

(** A service without a state: each call depends on its prompt only. *)
Definition stateless {World : Type} (llm : str -> outcome str)
  : str -> World -> outcome str * World :=
  fun prompt w => (llm prompt, w).

(** A service with a quota: it answers while calls are left, then refuses
    every call. *)
Definition metered (prompt : str) (calls_left : nat) : outcome str * nat :=
  match calls_left with
  | S n => (Ok (of_string "Rewritten Bullet Point: Led engineers"), n)
  | O => (Raised (of_string "quota exceeded"), O)
  end.

End Vocabulary.

Import Vocabulary.

Open Scope string_scope.
Open Scope nat_scope.
Open Scope list_scope.

(* ================================================================== *)
(** * The bullet splicer *)
(* ================================================================== *)

Lemma rank_cons (line : str) (lines : list str) (j : nat) :
  rank (line :: lines) (S j) =
  (if is_bullet_line line then 1 else 0) + rank lines j.
Proof.
  unfold rank. simpl. destruct (is_bullet_line line); reflexivity.
Qed.

Lemma rank_below_count (lines : list str) :
  forall j line,
    nth_error lines j = Some line -> is_bullet_line line = true ->
    rank lines j < bullet_count lines.
Proof.
  induction lines as [|l ls IH]; intros [|j] line Hj Hb; simpl in Hj;
    try discriminate.
  - injection Hj as ->. unfold rank, bullet_count. simpl. rewrite Hb.
    simpl. lia.
  - rewrite rank_cons. specialize (IH j line Hj Hb).
    unfold bullet_count in *. simpl.
    destruct (is_bullet_line l); simpl; lia.
Qed.

Section Splicer.

Variable new_bullets : list str.

Let k := List.length new_bullets.

#[local] Arguments Nat.max : simpl never.
#[local] Arguments Nat.min : simpl never.

(** The [for] loop appends one line per input line; line [j] is the
    replacement of index [bi + rank j] when it is a bullet line and that
    index exists, and the input line otherwise. *)
Lemma for_lines_spec (lines : list str) :
  forall out_lines bi,
  exists mid,
    for_lines new_bullets lines out_lines bi =
      (out_lines ++ mid,
       Nat.max bi (Nat.min (bi + bullet_count lines) k))
    /\ List.length mid = List.length lines
    /\ forall j line,
         nth_error lines j = Some line ->
         nth_error mid j =
           Some (if is_bullet_line line && (bi + rank lines j <? k)
                 then nth (bi + rank lines j) new_bullets []
                 else line).
Proof.
  induction lines as [|l ls IH]; intros out bi.
  - exists []. simpl. rewrite app_nil_r. unfold bullet_count. simpl.
    repeat split.
    + f_equal. lia.
    + intros [|j] line Hj; discriminate.
  - simpl. unfold bullet_count. simpl. fold k.
    destruct (is_bullet_line l) eqn:Hl.
    + destruct (bi <? k) eqn:Hbi.
      * destruct (IH (out ++ [nth bi new_bullets []]) (S bi))
          as (mid & Heq & Hlen & Hnth).
        exists (nth bi new_bullets [] :: mid). rewrite Heq.
        rewrite <- app_assoc. simpl. apply Nat.ltb_lt in Hbi.
        repeat split.
        -- f_equal. unfold bullet_count. lia.
        -- now rewrite Hlen.
        -- intros [|j] line Hj; simpl in Hj.
           ++ injection Hj as <-. simpl. rewrite Hl.
              unfold rank. simpl. rewrite Nat.add_0_r.
              apply Nat.ltb_lt in Hbi. now rewrite Hbi.
           ++ simpl. rewrite (Hnth j line Hj). rewrite rank_cons, Hl.
              now replace (bi + (1 + rank ls j)) with (S bi + rank ls j) by lia.
      * destruct (IH (out ++ [l]) bi) as (mid & Heq & Hlen & Hnth).
        exists (l :: mid). rewrite Heq. rewrite <- app_assoc. simpl.
        apply Nat.ltb_ge in Hbi.
        repeat split.
        -- f_equal. unfold bullet_count. lia.
        -- now rewrite Hlen.
        -- intros [|j] line Hj; simpl in Hj.
           ++ injection Hj as <-. simpl. rewrite Hl.
              unfold rank. simpl. rewrite Nat.add_0_r.
              apply Nat.ltb_ge in Hbi. now rewrite Hbi.
           ++ simpl. rewrite (Hnth j line Hj). rewrite rank_cons, Hl.
              assert (H1 : (bi + rank ls j <? k) = false)
                by (apply Nat.ltb_ge; lia).
              assert (H2 : (bi + (1 + rank ls j) <? k) = false)
                by (apply Nat.ltb_ge; lia).
              rewrite H1, H2. now rewrite !andb_false_r.
    + destruct (IH (out ++ [l]) bi) as (mid & Heq & Hlen & Hnth).
      exists (l :: mid). rewrite Heq. rewrite <- app_assoc. simpl.
      repeat split.
      * now rewrite Hlen.
      * intros [|j] line Hj; simpl in Hj.
        -- injection Hj as <-. simpl. now rewrite Hl.
        -- simpl. rewrite (Hnth j line Hj). now rewrite rank_cons, Hl.
Qed.

Lemma skipn_nth_cons (bi : nat) :
  bi < k -> skipn bi new_bullets = nth bi new_bullets [] :: skipn (S bi) new_bullets.
Proof.
  unfold k. revert bi. induction new_bullets as [|r rs IH]; intros bi Hbi.
  - simpl in Hbi. lia.
  - destruct bi as [|bi]; [reflexivity|]. simpl in Hbi.
    change (skipn (S bi) (r :: rs)) with (skipn bi rs).
    change (nth (S bi) (r :: rs) []) with (nth bi rs []).
    change (skipn (S (S bi)) (r :: rs)) with (skipn (S bi) rs).
    apply IH. lia.
Qed.

(** The [while] loop appends the replacements from index [bi] on. *)
Lemma while_surplus_spec (n : nat) :
  forall out_lines bi,
    bi + n = k ->
    while_surplus new_bullets n out_lines bi = out_lines ++ skipn bi new_bullets.
Proof.
  induction n as [|n IH]; intros out bi Hk.
  - simpl. rewrite skipn_all2 by (fold k; lia). now rewrite app_nil_r.
  - simpl. rewrite IH by lia. rewrite <- app_assoc. simpl.
    now rewrite <- skipn_nth_cons by lia.
Qed.

(** The result of [replace_bullets] in one equation: the lines of the body,
    bullet lines replaced in order while replacements last, then the
    replacements that are left, joined by line feeds. *)
Lemma replace_bullets_spec (section_text : str) :
  let lines := splitlines section_text in
  exists mid,
    replace_bullets section_text new_bullets =
      join [LF] (mid ++ skipn (Nat.min (bullet_count lines) k) new_bullets)
    /\ List.length mid = List.length lines
    /\ forall j line,
         nth_error lines j = Some line ->
         nth_error mid j =
           Some (if is_bullet_line line && (rank lines j <? k)
                 then nth (rank lines j) new_bullets []
                 else line).
Proof.
  intros lines. unfold replace_bullets. fold lines.
  destruct (for_lines_spec lines [] 0) as (mid & Heq & Hlen & Hnth).
  exists mid. rewrite Heq. simpl.
  rewrite while_surplus_spec by (fold k; lia).
  repeat split; auto.
Qed.

End Splicer.

Lemma rank_is_index (lines : list str) :
  forall j line,
    nth_error lines j = Some line -> is_bullet_line line = true ->
    nth_error (filter is_bullet_line lines) (rank lines j) = Some line.
Proof.
  induction lines as [|l ls IH]; intros [|j] line Hj Hb; simpl in Hj;
    try discriminate.
  - injection Hj as ->. simpl. rewrite Hb. reflexivity.
  - rewrite rank_cons. simpl. destruct (is_bullet_line l); simpl; eauto.
Qed.

Lemma nth_error_of_nth (rs : list str) (i : nat) :
  i < List.length rs -> nth_error rs i = Some (nth i rs []).
Proof.
  revert i. induction rs as [|r rs IH]; intros [|i] Hi; simpl in *;
    try lia; auto. apply IH. lia.
Qed.

(** C5 -- Positional replacement with equal counts.  When the replacement
    list has as many elements as the body has bullet lines, the result of
    [replace_bullets] is the join by line feeds of a list of lines as long as
    the list of lines of the body, in which the line at the position of the
    i-th bullet line is the i-th replacement and the line at the position of
    a non-bullet line is that line, unchanged. *)
Theorem replace_bullets_positional (section_text : str)
    (new_bullets : list str) :
  List.length new_bullets = bullet_count (splitlines section_text) ->
  exists out_lines,
    replace_bullets section_text new_bullets = join [LF] out_lines
    /\ List.length out_lines = List.length (splitlines section_text)
    /\ (forall j line,
          nth_error (splitlines section_text) j = Some line ->
          is_bullet_line line = true ->
          exists i r,
            i = rank (splitlines section_text) j
            /\ nth_error (filter is_bullet_line (splitlines section_text)) i
               = Some line
            /\ nth_error new_bullets i = Some r
            /\ nth_error out_lines j = Some r)
    /\ (forall j line,
          nth_error (splitlines section_text) j = Some line ->
          is_bullet_line line = false ->
          nth_error out_lines j = Some line).
Proof.
  intros Hk.
  destruct (replace_bullets_spec new_bullets section_text)
    as (mid & Heq & Hlen & Hnth).
  exists mid. rewrite Heq, <- Hk, Nat.min_id, skipn_all, app_nil_r.
  repeat split; auto.
  - intros j line Hj Hb.
    pose proof (rank_below_count _ _ _ Hj Hb) as Hr. rewrite <- Hk in Hr.
    exists (rank (splitlines section_text) j),
           (nth (rank (splitlines section_text) j) new_bullets []).
    repeat split.
    + now apply rank_is_index.
    + now apply nth_error_of_nth.
    + rewrite (Hnth j line Hj), Hb. apply Nat.ltb_lt in Hr. now rewrite Hr.
  - intros j line Hj Hb. now rewrite (Hnth j line Hj), Hb.
Qed.

Lemma replace_bullets_positional_witness :
  exists out_lines,
    replace_bullets
      (text ["Acme Corp"; "- built a scraper"; ""; "  * led a team"])
      [of_string "- X"; of_string "  * Y"]
    = join [LF] out_lines
    /\ List.length out_lines = 4
    /\ nth_error out_lines 3 = Some (of_string "  * Y").
Proof.
  destruct (replace_bullets_positional
              (text ["Acme Corp"; "- built a scraper"; ""; "  * led a team"])
              [of_string "- X"; of_string "  * Y"] eq_refl)
    as (out & Heq & Hlen & Hb & _).
  exists out. split; [exact Heq|]. split; [exact Hlen|].
  destruct (Hb 3 (of_string "  * led a team") eq_refl eq_refl)
    as (i & r & -> & _ & Hr & Ho).
  rewrite Ho, <- Hr. reflexivity.
Defined.

(** C6 -- Surplus handling.  When the replacement list has [k] elements and
    the body has [n < k] bullet lines, the result is the join of the lines
    of the body with every bullet line replaced in order, followed by the
    last [k - n] replacements as further lines, in the order of the list. *)
Theorem replace_bullets_surplus (section_text : str)
    (new_bullets : list str) :
  bullet_count (splitlines section_text) < List.length new_bullets ->
  exists out_lines,
    replace_bullets section_text new_bullets =
      join [LF]
        (out_lines
         ++ skipn (bullet_count (splitlines section_text)) new_bullets)
    /\ List.length out_lines = List.length (splitlines section_text)
    /\ List.length (skipn (bullet_count (splitlines section_text)) new_bullets)
       = List.length new_bullets - bullet_count (splitlines section_text)
    /\ (forall j line,
          nth_error (splitlines section_text) j = Some line ->
          nth_error out_lines j =
            if is_bullet_line line
            then nth_error new_bullets (rank (splitlines section_text) j)
            else Some line).
Proof.
  intros Hk.
  destruct (replace_bullets_spec new_bullets section_text)
    as (mid & Heq & Hlen & Hnth).
  exists mid. rewrite Heq, Nat.min_l by lia.
  repeat split; auto.
  - apply length_skipn.
  - intros j line Hj. rewrite (Hnth j line Hj).
    destruct (is_bullet_line line) eqn:Hb; [|reflexivity].
    pose proof (rank_below_count _ _ _ Hj Hb) as Hr.
    assert (Hlt : rank (splitlines section_text) j < List.length new_bullets)
      by lia.
    rewrite (nth_error_of_nth _ _ Hlt). apply Nat.ltb_lt in Hlt.
    now rewrite Hlt.
Qed.

Lemma replace_bullets_surplus_witness :
  exists out_lines,
    replace_bullets (text ["Acme Corp"; "- built a scraper"; "Remote"])
      [of_string "- X"; of_string "- Y"; of_string "- Z"]
    = join [LF] (out_lines ++ [of_string "- Y"; of_string "- Z"])
    /\ List.length out_lines = 3.
Proof.
  destruct (replace_bullets_surplus
              (text ["Acme Corp"; "- built a scraper"; "Remote"])
              [of_string "- X"; of_string "- Y"; of_string "- Z"])
    as (out & Heq & Hlen & _).
  - vm_compute. lia.
  - exists out. split; [exact Heq | exact Hlen].
Defined.

(** C7 -- Shortfall handling.  When the replacement list has [k] elements
    and the body has [n > k] bullet lines, the result is the join of a list
    of lines as long as the list of lines of the body: the first [k] bullet
    lines are replaced in order, the bullet lines after them and the
    non-bullet lines stay at their positions, unchanged. *)
Theorem replace_bullets_shortfall (section_text : str)
    (new_bullets : list str) :
  List.length new_bullets < bullet_count (splitlines section_text) ->
  exists out_lines,
    replace_bullets section_text new_bullets = join [LF] out_lines
    /\ List.length out_lines = List.length (splitlines section_text)
    /\ (forall j line,
          nth_error (splitlines section_text) j = Some line ->
          nth_error out_lines j =
            if is_bullet_line line
               && (rank (splitlines section_text) j <? List.length new_bullets)
            then nth_error new_bullets (rank (splitlines section_text) j)
            else Some line).
Proof.
  intros Hk.
  destruct (replace_bullets_spec new_bullets section_text)
    as (mid & Heq & Hlen & Hnth).
  exists mid. rewrite Heq, Nat.min_r by lia.
  rewrite skipn_all, app_nil_r.
  repeat split; auto.
  intros j line Hj. rewrite (Hnth j line Hj).
  destruct (is_bullet_line line); [|reflexivity]. simpl.
  destruct (Nat.ltb_spec (rank (splitlines section_text) j)
              (List.length new_bullets)) as [Hlt|Hge]; [|reflexivity].
  now rewrite (nth_error_of_nth _ _ Hlt).
Qed.

Lemma replace_bullets_shortfall_witness :
  exists out_lines,
    replace_bullets (text ["- one"; "note"; "- two"; "- three"])
      [of_string "- X"]
    = join [LF] out_lines
    /\ List.length out_lines = 4
    /\ nth_error out_lines 0 = Some (of_string "- X")
    /\ nth_error out_lines 3 = Some (of_string "- three").
Proof.
  destruct (replace_bullets_shortfall
              (text ["- one"; "note"; "- two"; "- three"])
              [of_string "- X"])
    as (out & Heq & Hlen & Hnth).
  - vm_compute. lia.
  - exists out. split; [exact Heq|]. split; [exact Hlen|]. split.
    + exact (Hnth 0 (of_string "- one") eq_refl).
    + exact (Hnth 3 (of_string "- three") eq_refl).
Defined.

(* ================================================================== *)
(** * Lines: [splitlines] and [join] *)
(* ================================================================== *)

Lemma splitlines_nil (s : str) : splitlines s = [] -> s = [].
Proof.
  destruct s as [|c s']; [reflexivity|]. simpl.
  destruct (is_linebreak c).
  - destruct s' as [|d s'']; [discriminate|].
    destruct (N.eqb c CR && N.eqb d LF); discriminate.
  - destruct (splitlines s'); discriminate.
Qed.

Lemma splitlines_break (c : char) (s : str) :
  is_linebreak c = true -> N.eqb c CR = false -> s <> [] ->
  splitlines (c :: s) = [] :: splitlines s.
Proof.
  intros Hc Hcr Hs. simpl. rewrite Hc, Hcr.
  destruct s as [|d s']; [contradiction|reflexivity].
Qed.

Lemma splitlines_plain (c : char) (s : str) :
  is_linebreak c = false ->
  splitlines (c :: s) =
  match splitlines s with
  | [] => [[c]]
  | l :: ls => (c :: l) :: ls
  end.
Proof. intros Hc. simpl. now rewrite Hc. Qed.

Lemma splitlines_break2 (c d : char) (s : str) :
  is_linebreak c = true ->
  splitlines (c :: d :: s) =
  if N.eqb c CR && N.eqb d LF then [] :: splitlines s
  else [] :: splitlines (d :: s).
Proof. intros Hc. simpl. now rewrite Hc. Qed.

Lemma join_cons_char (sep : str) (c : char) (l : str) (ls : list str) :
  join sep ((c :: l) :: ls) = c :: join sep (l :: ls).
Proof. destruct ls; reflexivity. Qed.

Lemma join_empty_first (ls : list str) :
  ls <> [] -> join [LF] ([] :: ls) = LF :: join [LF] ls.
Proof. destruct ls; [contradiction|reflexivity]. Qed.

Lemma only_LF_breaks_cons (c : char) (s : str) :
  only_LF_breaks (c :: s) = true ->
  (is_linebreak c = true -> c = LF) /\ only_LF_breaks s = true.
Proof.
  unfold only_LF_breaks. simpl. intros H.
  apply andb_true_iff in H as [Hc Hs]. split; [|exact Hs].
  intros Hb. rewrite Hb in Hc. simpl in Hc. now apply N.eqb_eq in Hc.
Qed.

Lemma ends_in_cons (p : char -> bool) (c : char) (s : str) :
  s <> [] -> ends_in p (c :: s) = ends_in p s.
Proof. destruct s; [contradiction|reflexivity]. Qed.

(** Joining the lines of a text whose only line boundaries are line feeds
    gives the text back, up to one line feed at the end. *)
Lemma join_splitlines_id (s : str) :
  only_LF_breaks s = true -> ends_in is_LF s = false ->
  join [LF] (splitlines s) = s.
Proof.
  induction s as [|c s' IH]; intros Hlf Hend; [reflexivity|].
  apply only_LF_breaks_cons in Hlf as [Hc Hlf].
  destruct s' as [|d s''].
  - simpl. destruct (is_linebreak c) eqn:Hb; [|reflexivity].
    rewrite (Hc eq_refl) in Hend. discriminate.
  - rewrite ends_in_cons in Hend by discriminate.
    specialize (IH Hlf Hend).
    destruct (is_linebreak c) eqn:Hb.
    + rewrite (Hc eq_refl) in *.
      rewrite splitlines_break by (reflexivity || discriminate).
      rewrite join_empty_first, IH; [reflexivity|].
      intros Hn. apply splitlines_nil in Hn. discriminate.
    + rewrite splitlines_plain by exact Hb.
      destruct (splitlines (d :: s'')) as [|l ls] eqn:Hsp.
      * apply splitlines_nil in Hsp. discriminate.
      * now rewrite join_cons_char, IH.
Qed.

Lemma join_splitlines_drop_LF (s : str) :
  only_LF_breaks s = true -> join [LF] (splitlines (s ++ [LF])) = s.
Proof.
  induction s as [|c s' IH]; intros Hlf; [reflexivity|].
  apply only_LF_breaks_cons in Hlf as [Hc Hlf]. specialize (IH Hlf).
  assert (Hne : splitlines (s' ++ [LF]) <> []).
  { intros Hn. apply splitlines_nil in Hn. now destruct s'. }
  change ((c :: s') ++ [LF]) with (c :: (s' ++ [LF])).
  destruct (is_linebreak c) eqn:Hb.
  - rewrite (Hc eq_refl).
    rewrite splitlines_break; try reflexivity; [|now destruct s'].
    now rewrite join_empty_first, IH.
  - rewrite splitlines_plain by exact Hb.
    destruct (splitlines (s' ++ [LF])) as [|l ls]; [contradiction|].
    now rewrite join_cons_char, IH.
Qed.

(** A line feed after a text that does not end at a line boundary adds no
    line. *)
Lemma splitlines_trailing_LF :
  forall n s,
    List.length s <= n -> s <> [] -> ends_in is_linebreak s = false ->
    splitlines (s ++ [LF]) = splitlines s.
Proof.
  induction n as [|n IH]; intros s Hn Hne Hend.
  - destruct s; [contradiction|simpl in Hn; lia].
  - destruct s as [|c s']; [contradiction|]. simpl in Hn.
    change ((c :: s') ++ [LF]) with (c :: (s' ++ [LF])).
    destruct s' as [|d s''].
    + simpl in Hend. simpl. now rewrite Hend.
    + rewrite ends_in_cons in Hend by discriminate.
      change ((d :: s'') ++ [LF]) with (d :: (s'' ++ [LF])).
      destruct (is_linebreak c) eqn:Hb.
      * rewrite (splitlines_break2 c d (s'' ++ [LF]) Hb).
        rewrite (splitlines_break2 c d s'' Hb).
        destruct (N.eqb c CR && N.eqb d LF) eqn:Hcrlf.
        -- f_equal. destruct s'' as [|e s3].
           ++ apply andb_true_iff in Hcrlf as [_ Hd].
              apply N.eqb_eq in Hd. subst d. discriminate.
           ++ apply IH; [simpl in *; lia|discriminate|].
              now rewrite ends_in_cons in Hend by discriminate.
        -- f_equal. change (d :: s'' ++ [LF]) with ((d :: s'') ++ [LF]).
           apply (IH (d :: s'')); [simpl in *; lia|discriminate|exact Hend].
      * rewrite (splitlines_plain c (d :: s'' ++ [LF]) Hb).
        rewrite (splitlines_plain c (d :: s'') Hb).
        change (d :: s'' ++ [LF]) with ((d :: s'') ++ [LF]).
        rewrite (IH (d :: s'')); [reflexivity|simpl in *; lia|discriminate|exact Hend].
Qed.

(** Joining the lines of a text never gives a longer text, and gives a
    shorter one when the text ends at a line boundary. *)
Lemma length_join_splitlines :
  forall n s,
    List.length s <= n -> s <> [] ->
    List.length (join [LF] (splitlines s))
    + (if ends_in is_linebreak s then 1 else 0) <= List.length s.
Proof.
  induction n as [|n IH]; intros s Hn Hne.
  - destruct s; [contradiction|simpl in Hn; lia].
  - destruct s as [|c s']; [contradiction|]. simpl in Hn.
    destruct s' as [|d s''].
    + simpl. destruct (is_linebreak c); simpl; lia.
    + rewrite ends_in_cons by discriminate.
      destruct (is_linebreak c) eqn:Hb.
      * rewrite splitlines_break2 by exact Hb.
        destruct (N.eqb c CR && N.eqb d LF) eqn:Hcrlf.
        -- destruct s'' as [|e s3].
           ++ apply andb_true_iff in Hcrlf as [_ Hd].
              apply N.eqb_eq in Hd. subst d. simpl. lia.
           ++ rewrite join_empty_first
                by (intros H; apply splitlines_nil in H; discriminate).
              rewrite (ends_in_cons _ d) by discriminate.
              assert (H3 : List.length (e :: s3) <= n) by (simpl in *; lia).
              apply IH in H3; [|discriminate].
              change (List.length (c :: d :: e :: s3))
                with (S (S (List.length (e :: s3)))).
              change (List.length (LF :: join [LF] (splitlines (e :: s3))))
                with (S (List.length (join [LF] (splitlines (e :: s3))))).
              lia.
        -- rewrite join_empty_first
             by (intros H; apply splitlines_nil in H; discriminate).
           assert (H3 : List.length (d :: s'') <= n) by (simpl in *; lia).
           apply IH in H3; [|discriminate].
           change (List.length (c :: d :: s''))
             with (S (List.length (d :: s''))).
           change (List.length (LF :: join [LF] (splitlines (d :: s''))))
             with (S (List.length (join [LF] (splitlines (d :: s''))))).
           lia.
      * rewrite splitlines_plain by exact Hb.
        assert (H3 : List.length (d :: s'') <= n) by (simpl in *; lia).
        apply IH in H3; [|discriminate].
        destruct (splitlines (d :: s'')) as [|l ls] eqn:Hsp.
        -- apply splitlines_nil in Hsp. discriminate.
        -- rewrite join_cons_char.
           change (List.length (c :: d :: s''))
             with (S (List.length (d :: s''))).
           change (List.length (c :: join [LF] (l :: ls)))
             with (S (List.length (join [LF] (l :: ls)))).
           lia.
Qed.

Lemma ends_in_snoc (p : char -> bool) (s : str) (c : char) :
  ends_in p (s ++ [c]) = p c.
Proof.
  induction s as [|d s' IH]; [reflexivity|].
  change ((d :: s') ++ [c]) with (d :: (s' ++ [c])).
  rewrite ends_in_cons; [exact IH|now destruct s'].
Qed.

Lemma for_lines_no_bullets (lines : list str) :
  forall out_lines bi,
    for_lines [] lines out_lines bi = (out_lines ++ lines, bi).
Proof.
  induction lines as [|l ls IH]; intros out bi; simpl.
  - now rewrite app_nil_r.
  - destruct (is_bullet_line l); rewrite IH, <- app_assoc; reflexivity.
Qed.

Lemma replace_bullets_nil (section_text : str) :
  replace_bullets section_text [] = join [LF] (splitlines section_text).
Proof.
  unfold replace_bullets. now rewrite for_lines_no_bullets.
Qed.

(** Replacing every bullet line by itself is replacing nothing. *)
Lemma replace_bullets_same (section_text : str) :
  replace_bullets section_text
    (filter is_bullet_line (splitlines section_text))
  = replace_bullets section_text [].
Proof.
  rewrite replace_bullets_nil.
  destruct (replace_bullets_spec
              (filter is_bullet_line (splitlines section_text)) section_text)
    as (mid & -> & Hlen & Hnth).
  fold (bullet_count (splitlines section_text)).
  rewrite Nat.min_id. unfold bullet_count at 1.
  rewrite skipn_all, app_nil_r. f_equal.
  apply nth_error_ext. intros j.
  destruct (nth_error (splitlines section_text) j) as [line|] eqn:Hj.
  - rewrite (Hnth j line Hj).
    destruct (is_bullet_line line) eqn:Hb; [|reflexivity].
    pose proof (rank_below_count _ _ _ Hj Hb) as Hr.
    unfold bullet_count in Hr.
    apply Nat.ltb_lt in Hr. rewrite Hr. cbn [andb]. f_equal.
    apply nth_error_nth. now apply rank_is_index.
  - apply nth_error_None. rewrite Hlen. now apply nth_error_None.
Qed.

(** C10 -- Trailing line break normalization.  With no replacements, a body
    whose line boundaries are all line feeds and that does not end with one
    is returned as it is.  A body that ends with a line feed is not, even
    when no bullet changes: the result is the join of the processed lines,
    without that line feed.  With line feeds as the only boundaries the
    result is exactly the body without its last line feed, and whatever the
    replacements, the last line feed of a body is not seen by the
    splicer. *)
Theorem replace_bullets_line_break_normalization (section_text : str) :
  (only_LF_breaks section_text = true ->
   ends_in is_LF section_text = false ->
   replace_bullets section_text [] = section_text)
  /\ replace_bullets (section_text ++ [LF]) [] <> section_text ++ [LF]
  /\ replace_bullets (section_text ++ [LF])
       (filter is_bullet_line (splitlines (section_text ++ [LF])))
     <> section_text ++ [LF]
  /\ (only_LF_breaks section_text = true ->
      replace_bullets (section_text ++ [LF]) [] = section_text)
  /\ (forall new_bullets,
        section_text <> [] ->
        ends_in is_linebreak section_text = false ->
        replace_bullets (section_text ++ [LF]) new_bullets
        = replace_bullets section_text new_bullets).
Proof.
  assert (Hneq : replace_bullets (section_text ++ [LF]) []
                 <> section_text ++ [LF]).
  { rewrite replace_bullets_nil. intros Heq.
    assert (Hne : section_text ++ [LF] <> []) by now destruct section_text.
    pose proof (length_join_splitlines _ _ (le_n _) Hne) as Hlen.
    rewrite ends_in_snoc, Heq in Hlen. simpl in Hlen. lia. }
  repeat split.
  - intros Hlf Hend. rewrite replace_bullets_nil.
    now apply join_splitlines_id.
  - exact Hneq.
  - now rewrite replace_bullets_same.
  - intros Hlf. rewrite replace_bullets_nil.
    now apply join_splitlines_drop_LF.
  - intros new_bullets Hne Hend. unfold replace_bullets.
    now rewrite (splitlines_trailing_LF _ _ (le_n _) Hne Hend).
Qed.

Lemma replace_bullets_line_break_normalization_witness :
  replace_bullets (text ["Acme Corp"; "- built a scraper"]) []
  = text ["Acme Corp"; "- built a scraper"]
  /\ replace_bullets (text ["Acme Corp"; "- built a scraper"; ""]) []
     = text ["Acme Corp"; "- built a scraper"]
  /\ replace_bullets (text ["Acme Corp"; "- built a scraper"; ""])
       [of_string "- X"]
     = replace_bullets (text ["Acme Corp"; "- built a scraper"])
         [of_string "- X"].
Proof.
  destruct (replace_bullets_line_break_normalization
              (text ["Acme Corp"; "- built a scraper"]))
    as (H1 & _ & _ & H3 & H4).
  split; [exact (H1 eq_refl eq_refl)|].
  split; [exact (H3 eq_refl)|].
  apply (H4 [of_string "- X"]); [discriminate|reflexivity].
Defined.

(* ================================================================== *)
(** * The matcher on the bullet pattern *)
(* ================================================================== *)

Lemma run_Seq (r1 r2 : regex) (st : state) :
  run (Seq r1 r2) st = flat_map (run r2) (run r1 st).
Proof. reflexivity. Qed.

Lemma run_Star_greedy (p : char -> bool) (st : state) :
  run (Star true p) st =
  rev (star_states p (pos st) (prev st) (rest st) (caps st)).
Proof. reflexivity. Qed.

Lemma run_Group (g : nat) (r : regex) (st : state) :
  run (Group g r) st = map (set_cap g (pos st)) (run r st).
Proof. reflexivity. Qed.

Lemma run_Cls_hit (p : char -> bool) (st : state) (d : char) (l : str) :
  rest st = d :: l -> p d = true ->
  run (Cls p) st = [mkState (S (pos st)) (Some d) l (caps st)].
Proof. intros Hr Hp. simpl. now rewrite Hr, Hp. Qed.

Lemma run_Cls_miss (p : char -> bool) (st : state) :
  match rest st with
  | d :: _ => p d = false
  | [] => True
  end ->
  run (Cls p) st = [].
Proof.
  intros H. simpl. destruct (rest st) as [|d l]; [reflexivity|].
  now rewrite H.
Qed.

(** Greedy [p*] tries the longest run first; every other position it can
    fall back to is followed by a character of [p]. *)
Lemma star_states_rev (p : char -> bool) (cs : list (nat * (nat * nat)))
    (l : str) :
  forall i pv,
  exists shorter,
    rev (star_states p i pv l cs) = star_end p i pv l cs :: shorter
    /\ Forall (fun st => exists c r, rest st = c :: r /\ p c = true) shorter.
Proof.
  induction l as [|c l' IH]; intros i pv.
  - exists []. split; [reflexivity|constructor].
  - simpl. destruct (p c) eqn:Hp.
    + destruct (IH (S i) (Some c)) as (shorter & Hrev & Hall).
      exists (shorter ++ [mkState i pv (c :: l') cs]).
      rewrite Hrev. split; [reflexivity|].
      apply Forall_app. split; [exact Hall|].
      constructor; [|constructor]. exists c, l'. now split.
    + exists []. split; [reflexivity|constructor].
Qed.

Lemma star_end_pos (p : char -> bool) (cs : list (nat * (nat * nat)))
    (l : str) :
  forall i pv,
    pos (star_end p i pv l cs) = i + span_len p l
    /\ rest (star_end p i pv l cs) = skipn (span_len p l) l
    /\ caps (star_end p i pv l cs) = cs.
Proof.
  induction l as [|c l' IH]; intros i pv; simpl.
  - repeat split. lia.
  - destruct (p c).
    + destruct (IH (S i) (Some c)) as (H1 & H2 & H3).
      repeat split; auto. lia.
    + simpl. repeat split. lia.
Qed.

Lemma flat_map_all_nil {A B : Type} (f : A -> list B) (l : list A) :
  Forall (fun x => f x = []) l -> flat_map f l = [].
Proof.
  induction 1 as [|x l Hx _ IH]; simpl; [reflexivity|].
  now rewrite Hx, IH.
Qed.

(** Greedy [p*] followed by something that cannot start with a character
    of [p] does not backtrack. *)
Lemma run_Star_committed (p : char -> bool) (r : regex) (st : state) :
  (forall st', (exists c l, rest st' = c :: l /\ p c = true) -> run r st' = []) ->
  run (Seq (Star true p) r) st =
  run r (star_end p (pos st) (prev st) (rest st) (caps st)).
Proof.
  intros Hr. rewrite run_Seq, run_Star_greedy.
  destruct (star_states_rev p (caps st) (rest st) (pos st) (prev st))
    as (shorter & -> & Hall).
  simpl. rewrite flat_map_all_nil, app_nil_r; [reflexivity|].
  eapply Forall_impl; [|exact Hall]. intros st'. apply Hr.
Qed.

Lemma tab_or_space_not_glyph (c : char) :
  tab_or_space c = true -> glyph c = false.
Proof.
  unfold tab_or_space, glyph. intros H.
  apply orb_true_iff in H as [H|H]; apply N.eqb_eq in H; subst c; reflexivity.
Qed.

(** The matcher agrees with the marker rule of the specification: the
    marker part matches at the start of a line exactly when the line has a
    marker, and the first match ends where the marker ends. *)
Lemma run_marker_part (line : str) (cs : list (nat * (nat * nat))) :
  match spec_marker_length line with
  | Some n =>
      exists st tl,
        run marker_part (mkState 0 None line cs) = st :: tl
        /\ pos st = n /\ rest st = skipn n line /\ caps st = cs
  | None => run marker_part (mkState 0 None line cs) = []
  end.
Proof.
  unfold marker_part, spec_marker_length.
  rewrite run_Star_committed.
  2:{ intros st' (c & l & Hrest & Hc). rewrite run_Seq.
      rewrite run_Cls_miss; [reflexivity|].
      rewrite Hrest. now apply tab_or_space_not_glyph. }
  cbn [pos prev rest caps].
  destruct (star_end_pos tab_or_space cs line 0 None) as (Hpos & Hrest & Hcaps).
  set (se := star_end tab_or_space 0 None line cs) in *.
  set (i := span_len tab_or_space line) in *.
  simpl in Hpos.
  rewrite run_Seq.
  destruct (skipn i line) as [|g [|w r]] eqn:Hskip.
  - rewrite run_Cls_miss; [reflexivity|now rewrite Hrest].
  - destruct (glyph g) eqn:Hg.
    + rewrite (run_Cls_hit glyph se g [] Hrest Hg). simpl. reflexivity.
    + rewrite run_Cls_miss; [reflexivity|now rewrite Hrest].
  - destruct (glyph g) eqn:Hg; simpl andb.
    + rewrite (run_Cls_hit glyph se g (w :: r) Hrest Hg).
      cbn [flat_map]. rewrite app_nil_r. unfold Plus. rewrite run_Seq.
      destruct (isspace w) eqn:Hw.
      * erewrite run_Cls_hit; [|reflexivity|exact Hw].
        cbn [flat_map pos prev rest caps]. rewrite app_nil_r.
        rewrite run_Star_greedy. cbn [pos prev rest caps].
        destruct (star_states_rev isspace (caps se) r (S (S (pos se))) (Some w))
          as (shorter & -> & _).
        destruct (star_end_pos isspace (caps se) r (S (S (pos se))) (Some w))
          as (Hp2 & Hr2 & Hc2).
        eexists _, shorter. split; [reflexivity|].
        rewrite Hp2, Hr2, Hc2, Hpos, Hcaps. repeat split; [lia|].
        replace (i + 2 + span_len isspace r)
          with (span_len isspace r + (2 + i)) by lia.
        rewrite <- skipn_skipn.
        change (2 + i) with (S (S i)).
        replace (skipn (S (S i)) line) with r; [reflexivity|].
        rewrite <- (firstn_skipn i line) at 1.
        replace (S (S i)) with (2 + i) by reflexivity.
        rewrite <- skipn_skipn. replace (skipn i (firstn i line ++ skipn i line))
          with (skipn i line) by now rewrite firstn_skipn.
        now rewrite Hskip.
      * rewrite run_Cls_miss; [reflexivity|]. simpl. exact Hw.
    + rewrite run_Cls_miss; [reflexivity|now rewrite Hrest].
Qed.

Lemma flat_map_assoc {A B C : Type} (f : A -> list B) (g : B -> list C)
    (l : list A) :
  flat_map g (flat_map f l) = flat_map (fun x => flat_map g (f x)) l.
Proof.
  induction l as [|x l IH]; simpl; [reflexivity|].
  now rewrite flat_map_app, IH.
Qed.

Lemma run_Seq_assoc (r1 r2 r3 : regex) (st : state) :
  run (Seq r1 (Seq r2 r3)) st = run (Seq (Seq r1 r2) r3) st.
Proof.
  rewrite (run_Seq (Seq r1 r2) r3), (run_Seq r1 r2), flat_map_assoc.
  reflexivity.
Qed.

Lemma run_Star_head (p : char -> bool) (st : state) :
  exists tl,
    run (Star true p) st =
    star_end p (pos st) (prev st) (rest st) (caps st) :: tl.
Proof.
  rewrite run_Star_greedy.
  destruct (star_states_rev p (caps st) (rest st) (pos st) (prev st))
    as (shorter & Hrev & _).
  now exists shorter.
Qed.

(** The bullet pattern read as the marker part followed by [.*]. *)
Lemma run_bullet_pattern (line : str) :
  run (bullet_pattern false) (mkState 0 None line []) =
  flat_map (run (Star true dot)) (run marker_part (mkState 0 None line [])).
Proof.
  unfold bullet_pattern, marker_part.
  rewrite run_Seq. change (run (Caret false) (mkState 0 None line []))
    with [mkState 0 None line []].
  cbn [flat_map]. rewrite app_nil_r.
  rewrite <- run_Seq.
  rewrite (run_Seq (Star true tab_or_space)), (run_Seq _ (Star true dot)).
  rewrite (run_Seq (Star true tab_or_space)), flat_map_assoc.
  apply flat_map_ext. intros st.
  rewrite <- !run_Seq. apply run_Seq_assoc.
Qed.

(** The test of the splicer is the marker rule of the specification. *)
Lemma is_bullet_line_marker (line : str) :
  is_bullet_line line =
  match spec_marker_length line with
  | Some _ => true
  | None => false
  end.
Proof.
  unfold is_bullet_line, re_match, match_at.
  rewrite run_bullet_pattern.
  pose proof (run_marker_part line []) as H.
  destruct (spec_marker_length line) as [n|].
  - destruct H as (st & tl & -> & _).
    cbn [flat_map]. destruct (run_Star_head dot st) as (tl' & ->).
    reflexivity.
  - rewrite H. reflexivity.
Qed.

(** The split made by the rewriter, by the marker rule: the prefix is the
    marker, the core is the rest of the first line, stripped. *)
Lemma split_bullet_marker (b : str) :
  split_bullet b =
  match spec_marker_length b with
  | Some n =>
      (firstn n b, strip (firstn (span_len dot (skipn n b)) (skipn n b)))
  | None => (of_string "- ", strip b)
  end.
Proof.
  unfold split_bullet, re_match, match_at, marker_pattern.
  rewrite run_Seq. change (run (Caret false) (mkState 0 None b []))
    with [mkState 0 None b []].
  cbn [flat_map]. rewrite app_nil_r, run_Seq, run_Group.
  fold marker_part. cbn [pos].
  pose proof (run_marker_part b []) as H.
  destruct (spec_marker_length b) as [n|].
  - destruct H as (st & tl & -> & Hpos & Hrest & Hcaps).
    cbn [map flat_map]. rewrite run_Group.
    destruct (run_Star_head dot (set_cap 1 0 st)) as (tl' & ->).
    cbn [map app].
    destruct (star_end_pos dot (caps (set_cap 1 0 st)) (rest (set_cap 1 0 st))
                (pos (set_cap 1 0 st)) (prev (set_cap 1 0 st)))
      as (Hp2 & _ & Hc2).
    remember (star_end dot (pos (set_cap 1 0 st)) (prev (set_cap 1 0 st))
                (rest (set_cap 1 0 st)) (caps (set_cap 1 0 st))) as se.
    cbn [set_cap pos rest caps] in Hp2, Hc2.
    rewrite Hpos, Hrest in Hp2. rewrite Hpos, Hcaps in Hc2.
    unfold group, span. cbn [m_caps m_string caps set_cap pos].
    rewrite Hc2, Hp2, Hpos. cbn [assoc Nat.eqb].
    unfold slice. rewrite Nat.sub_0_r. cbn [skipn].
    now replace (n + span_len dot (skipn n b) - n)
      with (span_len dot (skipn n b)) by lia.
  - rewrite H. reflexivity.
Qed.

(* ================================================================== *)
(** * The bullet rewriter *)
(* ================================================================== *)

Section Rewriter.

Variable llm : str -> outcome str.
Variable job_desc : str.

(** The service answers the call made for the bullet [b]. *)
Let served (b : str) : Prop :=
  exists answer, llm (prompt_format job_desc (snd (split_bullet b))) = Ok answer.

Lemma align_bullet_raises (core e : str) :
  llm (prompt_format job_desc core) = Raised e ->
  align_bullet llm job_desc core = Raised e.
Proof. intros H. unfold align_bullet. now rewrite H. Qed.

Lemma align_bullet_returns (core answer : str) :
  llm (prompt_format job_desc core) = Ok answer ->
  align_bullet llm job_desc core =
  Ok (sub label_pattern (fun _ => []) (strip answer)).
Proof. intros H. unfold align_bullet. now rewrite H. Qed.

Lemma for_bullets_step (b : str) (bs aligned : list str) :
  for_bullets llm job_desc (b :: bs) aligned =
  (new_core <- align_bullet llm job_desc (snd (split_bullet b)) ;;
   for_bullets llm job_desc bs (aligned ++ [fst (split_bullet b) ++ new_core])).
Proof. simpl. destruct (split_bullet b). reflexivity. Qed.

(** While the service answers, the loop appends one line per bullet, in
    order. *)
Lemma for_bullets_served (bullets : list str) :
  forall aligned,
    Forall served bullets ->
    for_bullets llm job_desc bullets aligned =
    Ok (aligned ++ map (rewritten_line llm job_desc) bullets).
Proof.
  induction bullets as [|b bs IH]; intros aligned Hall.
  - simpl. now rewrite app_nil_r.
  - inversion Hall as [|? ? (answer & Hb) Hbs]; subst.
    assert (Hline : rewritten_line llm job_desc b =
                    fst (split_bullet b)
                    ++ sub label_pattern (fun _ => []) (strip answer)).
    { unfold rewritten_line. now rewrite (align_bullet_returns _ _ Hb). }
    rewrite for_bullets_step, (align_bullet_returns _ _ Hb). cbn [bind map].
    rewrite (IH _ Hbs), <- app_assoc, Hline. reflexivity.
Qed.

(** The first call that raises ends the loop with its error. *)
Lemma for_bullets_raises (before : list str) (b : str) (after : list str)
    (e : str) :
  forall aligned,
    Forall served before ->
    llm (prompt_format job_desc (snd (split_bullet b))) = Raised e ->
    for_bullets llm job_desc (before ++ b :: after) aligned = Raised e.
Proof.
  induction before as [|b' bs IH]; intros aligned Hall Hb.
  - cbn [app]. rewrite for_bullets_step.
    now rewrite (align_bullet_raises _ _ Hb).
  - inversion Hall as [|? ? (answer & Hb') Hbs]; subst.
    change ((b' :: bs) ++ b :: after) with (b' :: (bs ++ b :: after)).
    rewrite for_bullets_step, (align_bullet_returns _ _ Hb'). cbn [bind].
    now apply IH.
Qed.

End Rewriter.

Lemma answers_served (f : str -> str) (job_desc : str) (bullets : list str) :
  Forall (fun b => exists answer,
            answers f (prompt_format job_desc (snd (split_bullet b)))
            = Ok answer) bullets.
Proof. apply Forall_forall. intros b _. now eexists. Qed.

(** When the service answers every call, the rewriter returns the
    rewritten lines of its bullets, in order. *)
Lemma align_bullets_to_job_answers (f : str -> str) (job_desc : str)
    (bullets : list str) :
  align_bullets_to_job (answers f) job_desc bullets =
  Ok (map (rewritten_line (answers f) job_desc) bullets).
Proof.
  unfold align_bullets_to_job.
  now rewrite for_bullets_served by apply answers_served.
Qed.

Lemma rewritten_line_answers (f : str -> str) (job_desc b : str) :
  exists new_core,
    align_bullet (answers f) job_desc (snd (split_bullet b)) = Ok new_core
    /\ rewritten_line (answers f) job_desc b
       = fst (split_bullet b) ++ new_core.
Proof.
  exists (sub label_pattern (fun _ => []) (strip
            (f (prompt_format job_desc (snd (split_bullet b)))))).
  split; reflexivity.
Qed.



(* ================================================================== *)
(** * The section locator and splicer on concrete documents *)
(* ================================================================== *)

(** C1 -- Boundary correctness fails on the program.  [.] does not match a
    line feed (the pattern has no DOTALL flag), so the body group cannot
    span two lines: for a heading followed by two bullet lines and a later
    heading, nothing is found and the result is empty, where the text
    between the headings is the two bullet lines.  With one bullet line
    between the headings that line is returned. *)
Theorem extract_section_loses_multiline_body :
  extract_section
    (text ["WORK EXPERIENCE"; "- Led a team of 5"; "- Built a web scraper";
           "EDUCATION"; "BS in Computer Science"])
    (of_string "Work Experience")
  = []
  /\ extract_section
       (text ["WORK EXPERIENCE"; "- Led a team of 5";
              "EDUCATION"; "BS in Computer Science"])
       (of_string "Work Experience")
     = of_string "- Led a team of 5".
Proof. split; vm_compute; reflexivity. Qed.

(** C3 -- First occurrence only fails on the program.  [re.sub] replaces
    every match of the section pattern: the body under the second "PROJECTS"
    heading is rewritten too, while the locator finds the first body only.
    The pattern is not anchored at the start of a line either, so the body
    under "PERSONAL PROJECTS" is rewritten as well. *)
Theorem replace_section_rewrites_every_match :
  extract_section
    (text ["PROJECTS"; "- Built a web scraper"; "EDUCATION";
           "PROJECTS"; "- Ran a chess club"])
    (of_string "Projects")
  = of_string "- Built a web scraper"
  /\ replace_section
       (text ["PROJECTS"; "- Built a web scraper"; "EDUCATION";
              "PROJECTS"; "- Ran a chess club"])
       (of_string "Projects") (of_string "- Built a crawler")
     = text ["PROJECTS"; "- Built a crawler"; "EDUCATION";
             "PROJECTS"; "- Built a crawler"]
  /\ replace_section
       (text ["PROJECTS"; "- Built a web scraper";
              "PERSONAL PROJECTS"; "- Ran a chess club"])
       (of_string "Projects") (of_string "- Built a crawler")
     = text ["PROJECTS"; "- Built a crawler";
             "PERSONAL PROJECTS"; "- Built a crawler"].
Proof. repeat split; vm_compute; reflexivity. Qed.

(** C4 -- The round trip fails on the program.  With the rewriting stage
    returning its bullets as they are, every later body that matches the
    section pattern is overwritten with the first one; and a bullet that
    holds a form feed is one bullet for the extractor and two lines for the
    splicer, which repeats its second part. *)
Theorem tailor_identity_changes_document :
  tailor_text identity_rewriter
    (text ["PROJECTS"; "- Built a web scraper"; "EDUCATION";
           "PROJECTS"; "- Ran a chess club"])
    (of_string "Data engineer")
  = Ok (text ["PROJECTS"; "- Built a web scraper"; "EDUCATION";
              "PROJECTS"; "- Built a web scraper"])
  /\ tailor_text identity_rewriter
       (text ["PROJECTS"; "- Built a web scraper";
              "PERSONAL PROJECTS"; "- Ran a chess club"])
       (of_string "Data engineer")
     = Ok (text ["PROJECTS"; "- Built a web scraper";
                 "PERSONAL PROJECTS"; "- Built a web scraper"])
  /\ tailor_text identity_rewriter
       (of_string "PROJECTS" ++ [LF] ++ of_string "- Built a web scraper"
        ++ [12%N] ++ of_string "Page 2")
       (of_string "Data engineer")
     = Ok (of_string "PROJECTS" ++ [LF] ++ of_string "- Built a web scraper"
           ++ [12%N] ++ of_string "Page 2" ++ [LF] ++ of_string "Page 2").
Proof. repeat split; vm_compute; reflexivity. Qed.

(* ================================================================== *)
(** * The body found by the locator never spans two lines *)
(* ================================================================== *)

Section Positions.

(** The subject of the match. *)
Variable subject : str.

(** A state is a position of the subject. *)
Let at_subject (st : state) : Prop := rest st = skipn (pos st) subject.

Lemma skipn_step (n : nat) (d : char) (l : str) :
  skipn n subject = d :: l -> skipn (S n) subject = l.
Proof.
  intros H. replace (S n) with (1 + n) by reflexivity.
  rewrite <- skipn_skipn, H. reflexivity.
Qed.

(** The positions of [p*]: the characters passed are in [p]. *)
Lemma star_states_passed (p : char -> bool) (cs : list (nat * (nat * nat)))
    (l : str) :
  forall i pv st,
    In st (star_states p i pv l cs) ->
    exists u,
      l = u ++ rest st /\ pos st = i + List.length u
      /\ forallb p u = true /\ caps st = cs.
Proof.
  induction l as [|c l' IH]; intros i pv st Hin; simpl in Hin.
  - destruct Hin as [<-|[]]. exists []. simpl. repeat split. lia.
  - destruct Hin as [<-|Hin].
    + exists []. simpl. repeat split. lia.
    + destruct (p c) eqn:Hp; [|destruct Hin].
      destruct (IH _ _ _ Hin) as (u & Hl & Hpos & Hall & Hcs).
      exists (c :: u). simpl. rewrite Hp, Hall, <- Hl, Hpos.
      repeat split; auto; lia.
Qed.

Lemma run_at_subject (r : regex) :
  forall st st',
    at_subject st -> In st' (run r st) ->
    at_subject st' /\ pos st <= pos st'.
Proof.
  unfold at_subject.
  induction r as [|ic c|p|ml| |r1 IH1 r2 IH2|r1 IH1 r2 IH2|g p|g r IH|r IH];
    intros st st' Hst Hin; simpl in Hin.
  - destruct Hin as [<-|[]]. auto.
  - destruct (rest st) as [|d l] eqn:Hr; [destruct Hin|].
    destruct (lit_matches ic c d); [|destruct Hin].
    destruct Hin as [<-|[]]. simpl. rewrite Hst in Hr.
    split; [symmetry; eapply skipn_step; eauto|lia].
  - destruct (rest st) as [|d l] eqn:Hr; [destruct Hin|].
    destruct (p d); [|destruct Hin].
    destruct Hin as [<-|[]]. simpl. rewrite Hst in Hr.
    split; [symmetry; eapply skipn_step; eauto|lia].
  - destruct (prev st) as [d|].
    + destruct (ml && N.eqb d LF); [|destruct Hin].
      destruct Hin as [<-|[]]. auto.
    + destruct Hin as [<-|[]]. auto.
  - destruct (rest st) eqn:Hr; [|destruct Hin]. destruct Hin as [<-|[]].
    split; [congruence|lia].
  - apply in_flat_map in Hin as (st1 & H1 & H2).
    destruct (IH1 _ _ Hst H1) as (Hs1 & Hle1).
    destruct (IH2 _ _ Hs1 H2) as (Hs2 & Hle2). split; [auto|lia].
  - apply in_app_or in Hin as [Hin|Hin]; eauto.
  - assert (Hin' : In st' (star_states p (pos st) (prev st) (rest st) (caps st)))
      by (destruct g; [now apply in_rev in Hin|exact Hin]).
    destruct (star_states_passed _ _ _ _ _ _ Hin') as (u & Hl & Hpos & _).
    split; [|lia]. rewrite Hpos, Nat.add_comm, <- skipn_skipn, <- Hst, Hl.
    now rewrite skipn_app, skipn_all, Nat.sub_diag.
  - apply in_map_iff in Hin as (st1 & <- & H1).
    destruct (IH _ _ Hst H1). simpl. auto.
  - destruct (run r st); [destruct Hin|]. destruct Hin as [<-|[]]. auto.
Qed.

Lemma run_Ahead_same (r : regex) (st st' : state) :
  In st' (run (Ahead r) st) -> st' = st.
Proof.
  simpl. destruct (run r st); intros Hin; [destruct Hin|].
  now destruct Hin as [<-|[]].
Qed.

(** Every match of the section pattern records, for the body group, a span
    of the subject without line feed. *)
Lemma section_pattern_body_one_line (section_name : str) (st st' : state) :
  at_subject st ->
  In st' (run (section_pattern section_name) st) ->
  exists a b,
    assoc body (caps st') = Some (a, b)
    /\ ~ In LF (slice subject a b).
Proof.
  intros Hst Hin. unfold section_pattern in Hin.
  rewrite run_Seq in Hin. apply in_flat_map in Hin as (st1 & H1 & Hin).
  destruct (run_at_subject _ _ _ Hst H1) as (Hs1 & _).
  rewrite run_Seq in Hin. apply in_flat_map in Hin as (st2 & H2 & Hin).
  apply run_Ahead_same in Hin. subst st'.
  rewrite run_Group in H2. apply in_map_iff in H2 as (st3 & <- & H3).
  destruct (star_states_passed _ _ _ _ _ _ H3) as (u & Hl & Hpos & Hall & _).
  exists (pos st1), (pos st3). split.
  - unfold set_cap. cbn [caps assoc]. now rewrite Nat.eqb_refl.
  - unfold slice. unfold at_subject in Hs1. rewrite <- Hs1, Hl, Hpos.
    replace (pos st1 + List.length u - pos st1) with (List.length u + 0) by lia.
    rewrite firstn_app_2. cbn [firstn]. rewrite app_nil_r.
    intros HLF. rewrite forallb_forall in Hall.
    specialize (Hall _ HLF). discriminate.
Qed.

Lemma search_from_found (r : regex) (l : str) :
  forall i pv m,
    l = skipn i subject ->
    search_from r subject i pv l = Some m ->
    exists st st',
      at_subject st /\ In st' (run r st)
      /\ m_string m = subject /\ m_caps m = caps st'
      /\ m_start m = pos st /\ m_end m = pos st'.
Proof.
  induction l as [|c l' IH]; intros i pv m Hl Hs; simpl in Hs;
    unfold match_at in Hs.
  - destruct (run r (mkState i pv [] [])) as [|st' tl] eqn:Hrun;
      [discriminate|].
    injection Hs as <-. exists (mkState i pv [] []), st'.
    repeat split; auto. rewrite Hrun. now left.
  - destruct (run r (mkState i pv (c :: l') [])) as [|st' tl] eqn:Hrun.
    + apply (IH (S i) (Some c) m); [|exact Hs].
      symmetry. eapply skipn_step. symmetry. exact Hl.
    + injection Hs as <-. exists (mkState i pv (c :: l') []), st'.
      repeat split; auto. rewrite Hrun. now left.
Qed.

(** Every match of the section pattern is a heading followed by a body: the
    header group runs from the start of the match to the start of the body
    group, which runs to the end of the match. *)
Lemma section_pattern_spans (section_name : str) (st st' : state) :
  at_subject st ->
  In st' (run (section_pattern section_name) st) ->
  exists h,
    assoc header (caps st') = Some (pos st, h)
    /\ assoc body (caps st') = Some (h, pos st')
    /\ pos st <= h <= pos st'.
Proof.
  intros Hst Hin. unfold section_pattern in Hin.
  rewrite run_Seq in Hin. apply in_flat_map in Hin as (st1 & H1 & Hin).
  destruct (run_at_subject _ _ _ Hst H1) as (Hs1 & Hle1).
  rewrite run_Seq in Hin. apply in_flat_map in Hin as (st2 & H2 & Hin).
  apply run_Ahead_same in Hin. subst st'.
  rewrite run_Group in H1. apply in_map_iff in H1 as (st0 & <- & H0).
  rewrite run_Group in H2. apply in_map_iff in H2 as (st3 & <- & H3).
  destruct (star_states_passed _ _ _ _ _ _ H3) as (u & _ & Hpos & _ & Hcs).
  exists (pos st0). cbn [set_cap caps pos] in *. rewrite Hcs.
  repeat split; try lia; reflexivity.
Qed.

End Positions.

(** Whatever the document and the section name, the body returned by
    [extract_section] holds no line feed: a section of two lines or more is
    never returned. *)
Lemma extract_section_one_line (resume section_name : str) :
  ~ In LF (extract_section resume section_name).
Proof.
  unfold extract_section, search.
  destruct (search_from _ resume 0 None resume) as [m|] eqn:Hs;
    [|intros []].
  apply search_from_found in Hs as (st & st' & Hst & Hin & Hm & Hc & _);
    [|reflexivity].
  destruct (section_pattern_body_one_line _ _ _ _ Hst Hin)
    as (a & b & Hab & Hno).
  unfold group, span, body in *. rewrite Hc, Hab, Hm. exact Hno.
Qed.

(* ================================================================== *)
(** * The span rewritten first is the span located *)
(* ================================================================== *)

Lemma firstn_add (n m : nat) (l : str) :
  firstn (n + m) l = firstn n l ++ firstn m (skipn n l).
Proof.
  revert l. induction n as [|n IH]; intros [|c l]; simpl;
    try reflexivity.
  - now rewrite firstn_nil.
  - now rewrite IH.
Qed.

Lemma slice_to_end (s : str) (a b : nat) :
  a <= b -> skipn a s = slice s a b ++ skipn b s.
Proof.
  intros Hab. unfold slice.
  rewrite <- (firstn_skipn (b - a) (skipn a s)) at 1.
  rewrite skipn_skipn. now replace (b - a + a) with b by lia.
Qed.

(** The scan of [re.sub] starts with the match of [re.search]. *)
Lemma finditer_from_search (r : regex) (s : str) (l : str) :
  forall i pv,
    match search_from r s i pv l with
    | Some m => exists later, finditer_from r s 0 i pv l = m :: later
    | None => finditer_from r s 0 i pv l = []
    end.
Proof.
  induction l as [|c l' IH]; intros i pv; simpl.
  - destruct (match_at r s i pv []); [now eexists|reflexivity].
  - destruct (match_at r s i pv (c :: l')); [now eexists|]. apply IH.
Qed.

(** On every document, the locator and the splicer agree on the first
    span: the document is the text before the heading, the heading, the
    body that [extract_section] returns and the text after it, and
    [replace_section] keeps the first two and puts the new body in place
    of the third.  The text after it is scanned again for further matches.
    Without a match the document is returned as it is. *)
Lemma replace_section_first_span (resume section_name new_body : str) :
  match search (section_pattern section_name) resume with
  | Some m =>
      exists later,
        resume = firstn (m_start m) resume ++ group m header
                 ++ extract_section resume section_name
                 ++ skipn (m_end m) resume
        /\ replace_section resume section_name new_body
           = firstn (m_start m) resume ++ group m header ++ new_body
             ++ subst (fun m' => group m' header ++ new_body) resume
                  (m_end m) later
  | None =>
      extract_section resume section_name = []
      /\ replace_section resume section_name new_body = resume
  end.
Proof.
  unfold extract_section, replace_section, sub, finditer, search.
  pose proof (finditer_from_search (section_pattern section_name) resume
                resume 0 None) as Hscan.
  destruct (search_from _ resume 0 None resume) as [m|] eqn:Hs.
  - destruct Hscan as (later & ->). exists later.
    apply search_from_found in Hs
      as (st & st' & Hst & Hin & Hm & Hc & Hstart & Hend); [|reflexivity].
    destruct (section_pattern_spans _ _ _ _ Hst Hin) as (h & Hh & Hb & Hle).
    assert (Hhead : group m header = slice resume (m_start m) h).
    { unfold group, span, header in *. now rewrite Hc, Hh, Hm, Hstart. }
    assert (Hbody : group m body = slice resume h (m_end m)).
    { unfold group, span, body in *. now rewrite Hc, Hb, Hm, Hend. }
    split.
    + rewrite Hhead, Hbody, Hstart, Hend.
      rewrite <- (firstn_skipn (pos st) resume) at 1. f_equal.
      rewrite (slice_to_end resume (pos st) h) by lia.
      now rewrite (slice_to_end resume h (pos st')) by lia.
    + cbn [subst]. unfold slice at 1.
      rewrite Nat.sub_0_r, <- app_assoc. reflexivity.
  - rewrite Hscan. split; reflexivity.
Qed.

(* ================================================================== *)
(** * The bullet extractor *)
(* ================================================================== *)

(** The marker part at any position of a subject: it matches exactly when
    the text at that position has a marker, and first ends where the marker
    ends. *)
Lemma run_marker_part_at (i0 : nat) (pv : option char) (l : str)
    (cs : list (nat * (nat * nat))) :
  match spec_marker_length l with
  | Some n =>
      exists st tl,
        run marker_part (mkState i0 pv l cs) = st :: tl
        /\ pos st = i0 + n /\ rest st = skipn n l /\ caps st = cs
  | None => run marker_part (mkState i0 pv l cs) = []
  end.
Proof.
  unfold marker_part, spec_marker_length.
  rewrite run_Star_committed.
  2:{ intros st' (c & l' & Hrest & Hc). rewrite run_Seq.
      rewrite run_Cls_miss; [reflexivity|].
      rewrite Hrest. now apply tab_or_space_not_glyph. }
  cbn [pos prev rest caps].
  destruct (star_end_pos tab_or_space cs l i0 pv) as (Hpos & Hrest & Hcaps).
  set (se := star_end tab_or_space i0 pv l cs) in *.
  set (i := span_len tab_or_space l) in *.
  rewrite run_Seq.
  destruct (skipn i l) as [|g [|w r]] eqn:Hskip.
  - rewrite run_Cls_miss; [reflexivity|now rewrite Hrest].
  - destruct (glyph g) eqn:Hg.
    + rewrite (run_Cls_hit glyph se g [] Hrest Hg). simpl. reflexivity.
    + rewrite run_Cls_miss; [reflexivity|now rewrite Hrest].
  - destruct (glyph g) eqn:Hg; simpl andb.
    + rewrite (run_Cls_hit glyph se g (w :: r) Hrest Hg).
      cbn [flat_map]. rewrite app_nil_r. unfold Plus. rewrite run_Seq.
      destruct (isspace w) eqn:Hw.
      * erewrite run_Cls_hit; [|reflexivity|exact Hw].
        cbn [flat_map pos prev rest caps]. rewrite app_nil_r.
        rewrite run_Star_greedy. cbn [pos prev rest caps].
        destruct (star_states_rev isspace (caps se) r (S (S (pos se))) (Some w))
          as (shorter & -> & _).
        destruct (star_end_pos isspace (caps se) r (S (S (pos se))) (Some w))
          as (Hp2 & Hr2 & Hc2).
        eexists _, shorter. split; [reflexivity|].
        rewrite Hp2, Hr2, Hc2, Hpos, Hcaps. repeat split; [lia|].
        replace (i + 2 + span_len isspace r)
          with (span_len isspace r + (2 + i)) by lia.
        rewrite <- skipn_skipn. rewrite <- (skipn_skipn 2 i), Hskip.
        reflexivity.
      * rewrite run_Cls_miss; [reflexivity|]. simpl. exact Hw.
    + rewrite run_Cls_miss; [reflexivity|now rewrite Hrest].
Qed.

Lemma run_Seq4 (r1 r2 r3 r4 : regex) (st : state) :
  run (Seq r1 (Seq r2 (Seq r3 r4))) st =
  flat_map (run r4) (run (Seq r1 (Seq r2 r3)) st).
Proof.
  rewrite (run_Seq r1), (run_Seq r1 (Seq r2 r3)), flat_map_assoc.
  apply flat_map_ext. intros st'.
  now rewrite run_Seq_assoc, run_Seq.
Qed.

(** The match of the extractor's pattern at a position: there is one
    exactly at a line start where the text has a marker, and it runs from
    there to the end of the line on which the marker ends. *)
Lemma match_at_bullet_pattern (s : str) (i : nat) (pv : option char)
    (l : str) :
  match_at (bullet_pattern true) s i pv l =
  if line_start pv then
    match spec_marker_length l with
    | Some n =>
        Some (mkMatch s i (i + n + span_len dot (skipn n l)) [])
    | None => None
    end
  else None.
Proof.
  unfold match_at, bullet_pattern. rewrite run_Seq.
  assert (Hc : run (Caret true) (mkState i pv l []) =
               if line_start pv then [mkState i pv l []] else []).
  { simpl. destruct pv as [d|]; [|reflexivity]. simpl.
    now destruct (N.eqb d LF). }
  rewrite Hc. destruct (line_start pv); [|reflexivity].
  cbn [flat_map]. rewrite app_nil_r.
  rewrite run_Seq4. fold marker_part.
  pose proof (run_marker_part_at i pv l []) as H.
  destruct (spec_marker_length l) as [n|].
  - destruct H as (st & tl & -> & Hpos & Hrest & Hcaps).
    cbn [flat_map]. destruct (run_Star_head dot st) as (tl' & ->).
    cbn [app].
    destruct (star_end_pos dot (caps st) (rest st) (pos st) (prev st))
      as (Hp2 & _ & Hc2).
    now rewrite Hp2, Hc2, Hpos, Hrest, Hcaps.
  - rewrite H. reflexivity.
Qed.

Lemma last_char_snoc (s : str) (c : char) : last_char (s ++ [c]) = Some c.
Proof.
  induction s as [|d s' IH]; [reflexivity|].
  change ((d :: s') ++ [c]) with (d :: (s' ++ [c])).
  simpl. destruct (s' ++ [c]) eqn:H; [now destruct s'|exact IH].
Qed.

Lemma line_start_last_char (before : str) :
  line_start (last_char before) = true ->
  before = [] \/ ends_in is_LF before = true.
Proof.
  induction before as [|c s' IH]; [now left|]. right.
  destruct s' as [|d s'']; [exact H|].
  change (last_char (c :: d :: s'')) with (last_char (d :: s'')) in H.
  rewrite ends_in_cons by discriminate.
  destruct (IH H) as [Hnil|Hend]; [discriminate|exact Hend].
Qed.

(** Every match the scan reports is the match of the pattern at some
    position of the subject. *)
Lemma finditer_from_In (r : regex) (s : str) (l : str) :
  forall skip before m,
    s = before ++ l ->
    In m (finditer_from r s skip (List.length before) (last_char before) l) ->
    exists before' l',
      s = before' ++ l'
      /\ match_at r s (List.length before') (last_char before') l' = Some m.
Proof.
  induction l as [|c l' IH]; intros skip before m Hs Hin.
  - destruct skip as [|n]; simpl in Hin; [|destruct Hin].
    destruct (match_at r s _ _ []) as [m'|] eqn:Hm; [|destruct Hin].
    destruct Hin as [<-|[]]. now exists before, [].
  - assert (Hnext : forall skip',
              In m (finditer_from r s skip' (S (List.length before))
                      (Some c) l') ->
              exists before' l'0,
                s = before' ++ l'0
                /\ match_at r s (List.length before') (last_char before') l'0
                   = Some m).
    { intros skip' H. apply (IH skip' (before ++ [c])).
      - now rewrite <- app_assoc.
      - now rewrite length_app, Nat.add_1_r, last_char_snoc. }
    destruct skip as [|n]; simpl in Hin; [|exact (Hnext n Hin)].
    destruct (match_at r s _ _ (c :: l')) as [m'|] eqn:Hm.
    + destruct Hin as [<-|Hin]; [now exists before, (c :: l')|].
      exact (Hnext _ Hin).
    + exact (Hnext 0 Hin).
Qed.

Lemma span_len_le (p : char -> bool) (l : str) :
  span_len p l <= List.length l.
Proof. induction l as [|c l IH]; simpl; [lia|]. destruct (p c); simpl; lia. Qed.

Lemma span_len_firstn (p : char -> bool) (l : str) :
  forall m, span_len p l <= m -> span_len p (firstn m l) = span_len p l.
Proof.
  induction l as [|c l IH]; intros m Hm; [now rewrite firstn_nil|].
  simpl in *. destruct (p c) eqn:Hp.
  - destruct m as [|m]; [lia|]. simpl. rewrite Hp, IH by lia. reflexivity.
  - destruct m as [|m]; [reflexivity|]. simpl. now rewrite Hp.
Qed.

Lemma skipn_span_len (p : char -> bool) (l : str) :
  match skipn (span_len p l) l with
  | [] => True
  | c :: _ => p c = false
  end.
Proof.
  induction l as [|c l IH]; simpl; [exact I|].
  destruct (p c) eqn:Hp; [exact IH|exact Hp].
Qed.

(** The text of a match of the bullet pattern has the marker of the text
    it was found in. *)
Lemma spec_marker_length_firstn (l : str) (n d : nat) :
  spec_marker_length l = Some n ->
  spec_marker_length (firstn (n + d) l) = Some n.
Proof.
  unfold spec_marker_length. intros H.
  destruct (skipn (span_len tab_or_space l) l) as [|g [|w r]] eqn:Hskip;
    try discriminate.
  destruct (glyph g && isspace w) eqn:Hgw; [|discriminate].
  injection H as <-.
  set (i := span_len tab_or_space l) in *.
  rewrite span_len_firstn by (fold i; lia). fold i.
  rewrite skipn_firstn_comm, Hskip.
  replace (i + 2 + span_len isspace r + d - i)
    with (S (S (span_len isspace r + d))) by lia.
  cbn [firstn]. rewrite Hgw.
  now rewrite span_len_firstn by lia.
Qed.

Lemma dot_false (c : char) : dot c = false -> c = LF.
Proof.
  unfold dot. intros H. apply negb_false_iff in H. now apply N.eqb_eq in H.
Qed.

(** X2 -- Every bullet the extractor returns is a piece of the text that starts
    at a line start and ends at a line end, and it passes the test of the
    splicer: it has a marker, which is the prefix the rewriter keeps. *)
Theorem extract_bullets_are_bullet_lines (section_text b : str) :
  In b (extract_bullets section_text) ->
  is_bullet_line b = true
  /\ (exists n, spec_marker_length b = Some n
                /\ fst (split_bullet b) = firstn n b)
  /\ exists before after,
       section_text = before ++ b ++ after
       /\ (before = [] \/ ends_in is_LF before = true)
       /\ match after with
          | [] => True
          | c :: _ => c = LF
          end.
Proof.
  unfold extract_bullets, findall, finditer. intros Hin.
  apply in_map_iff in Hin as (m & <- & Hin).
  apply (finditer_from_In _ _ _ 0 []) in Hin; [|reflexivity].
  destruct Hin as (before & l & Hs & Hm).
  rewrite match_at_bullet_pattern in Hm.
  destruct (line_start (last_char before)) eqn:Hstart; [|discriminate].
  destruct (spec_marker_length l) as [n|] eqn:Hn; [|discriminate].
  injection Hm as <-.
  set (d := span_len dot (skipn n l)).
  assert (Hb : group (mkMatch section_text (List.length before)
                        (List.length before + n + d) []) 0
               = firstn (n + d) l).
  { unfold group, span, slice. cbn [m_start m_end m_string].
    rewrite Hs, skipn_app, skipn_all, Nat.sub_diag. cbn [skipn app].
    f_equal. lia. }
  rewrite Hb.
  pose proof (spec_marker_length_firstn l n d Hn) as Hn'.
  split; [now rewrite is_bullet_line_marker, Hn'|].
  split.
  - exists n. split; [exact Hn'|]. now rewrite split_bullet_marker, Hn'.
  - exists before, (skipn (n + d) l). rewrite firstn_skipn.
    split; [exact Hs|]. split; [now apply line_start_last_char|].
    rewrite Nat.add_comm, <- skipn_skipn. unfold d.
    pose proof (skipn_span_len dot (skipn n l)) as H.
    destruct (skipn _ (skipn n l)); [exact I|now apply dot_false].
Qed.

Lemma extract_bullets_are_bullet_lines_witness :
  is_bullet_line (of_string "  * Led a team") = true
  /\ exists before after,
       text ["Acme Corp"; "  * Led a team"; "Remote"]
       = before ++ of_string "  * Led a team" ++ after.
Proof.
  destruct (extract_bullets_are_bullet_lines
              (text ["Acme Corp"; "  * Led a team"; "Remote"])
              (of_string "  * Led a team"))
    as (Hb & _ & before & after & Hs & _).
  - vm_compute. now left.
  - split; [exact Hb|]. now exists before, after.
Defined.

Lemma spec_marker_length_le (l : str) (n : nat) :
  spec_marker_length l = Some n -> n <= List.length l.
Proof.
  unfold spec_marker_length. intros H.
  destruct (skipn (span_len tab_or_space l) l) as [|g [|w r]] eqn:Hskip;
    try discriminate.
  destruct (glyph g && isspace w); [|discriminate]. injection H as <-.
  pose proof (f_equal (@List.length _) Hskip) as Hl.
  rewrite length_skipn in Hl. simpl in Hl.
  pose proof (span_len_le isspace r). lia.
Qed.

Lemma span_len_all (p : char -> bool) (l : str) :
  forallb p l = true -> span_len p l = List.length l.
Proof.
  induction l as [|c l IH]; simpl; [reflexivity|]. intros H.
  apply andb_true_iff in H as [-> Hl]. now rewrite IH.
Qed.

Lemma forallb_skipn (p : char -> bool) (n : nat) (l : str) :
  forallb p l = true -> forallb p (skipn n l) = true.
Proof.
  revert l. induction n as [|n IH]; intros [|c l] H; simpl in *; auto.
  apply andb_true_iff in H as [_ Hl]. now apply IH.
Qed.

(** Under a match that covers the rest of the text the scan finds nothing
    more. *)
Lemma finditer_from_bullet_covered (s : str) (l : str) :
  forall i pv,
    finditer_from (bullet_pattern true) s (List.length l) i pv l = [].
Proof.
  induction l as [|c l' IH]; intros i pv; simpl.
  - rewrite match_at_bullet_pattern. now destruct (line_start pv).
  - apply IH.
Qed.

(** Inside a line no bullet starts. *)
Lemma finditer_from_bullet_inside (s : str) (l : str) :
  forall i c,
    dot c = true -> no_LF l = true ->
    finditer_from (bullet_pattern true) s 0 i (Some c) l = [].
Proof.
  induction l as [|c' l' IH]; intros i c Hc Hl; simpl;
    rewrite match_at_bullet_pattern; cbn [line_start];
    unfold dot in Hc; apply negb_true_iff in Hc; rewrite Hc.
  - reflexivity.
  - simpl in Hl. apply andb_true_iff in Hl as [Hc' Hl]. now apply IH.
Qed.

(** On a text without line feed the extractor returns the text itself when
    it has a marker, and nothing otherwise. *)
Lemma extract_bullets_no_LF (section_text : str) :
  no_LF section_text = true ->
  extract_bullets section_text =
  if is_bullet_line section_text then [section_text] else [].
Proof.
  intros Hno. rewrite is_bullet_line_marker.
  unfold extract_bullets, findall, finditer.
  destruct section_text as [|c l]; [reflexivity|].
  cbn [finditer_from]. rewrite match_at_bullet_pattern. cbn [line_start].
  simpl in Hno. apply andb_true_iff in Hno as [Hc Hl].
  destruct (spec_marker_length (c :: l)) as [n|] eqn:Hn.
  - pose proof (spec_marker_length_le _ _ Hn) as Hle.
    assert (Hall : forallb dot (c :: l) = true) by (simpl; now rewrite Hc).
    rewrite (span_len_all dot (skipn n (c :: l)))
      by now apply forallb_skipn.
    rewrite length_skipn. cbn [m_end].
    change (List.length (c :: l)) with (S (List.length l)) in *.
    replace (0 + n + (S (List.length l) - n)) with (S (List.length l))
      by lia.
    replace (S (List.length l) - 0 - 1) with (List.length l) by lia.
    rewrite finditer_from_bullet_covered. cbn [map]. f_equal.
    unfold group, span, slice. cbn [m_start m_end m_string skipn].
    rewrite Nat.sub_0_r. apply (firstn_all (c :: l)).
  - now rewrite finditer_from_bullet_inside.
Qed.

Lemma not_In_no_LF (s : str) : ~ In LF s -> no_LF s = true.
Proof.
  intros H. apply forallb_forall. intros c Hc. unfold dot.
  apply negb_true_iff. apply N.eqb_neq. intros ->. now apply H.
Qed.

(** X1 -- What the orchestrator gets from one section: the body found by the
    locator holds no line feed, so the extractor returns at most one bullet,
    the whole body. *)
Theorem located_body_has_at_most_one_bullet (resume section_name : str) :
  ~ In LF (extract_section resume section_name)
  /\ extract_bullets (extract_section resume section_name) =
     if is_bullet_line (extract_section resume section_name)
     then [extract_section resume section_name]
     else [].
Proof.
  pose proof (extract_section_one_line resume section_name) as Hone.
  split; [exact Hone|].
  apply extract_bullets_no_LF. now apply not_In_no_LF.
Qed.

(* ================================================================== *)
(** * Nothing is lost by the splicer *)
(* ================================================================== *)

(** The position of the i-th bullet line. *)
Lemma bullet_position (lines : list str) :
  forall i,
    i < bullet_count lines ->
    exists j line,
      nth_error lines j = Some line /\ is_bullet_line line = true
      /\ rank lines j = i.
Proof.
  induction lines as [|l ls IH]; intros i Hi; unfold bullet_count in *;
    simpl in Hi; [lia|].
  destruct (is_bullet_line l) eqn:Hl.
  - destruct i as [|i].
    + exists 0, l. repeat split; auto.
    + destruct (IH i) as (j & line & Hj & Hb & Hr); [simpl in Hi; lia|].
      exists (S j), line. rewrite rank_cons, Hl, Hr. repeat split; auto.
  - destruct (IH i Hi) as (j & line & Hj & Hb & Hr).
    exists (S j), line. rewrite rank_cons, Hl, Hr. repeat split; auto.
Qed.

(** X4 -- Whatever the two lengths, every replacement and every non-bullet line
    of the body is a line of the result, and the result has as many lines
    as the body plus the replacements in surplus. *)
Theorem replace_bullets_loses_nothing (section_text : str)
    (new_bullets : list str) :
  exists out_lines,
    replace_bullets section_text new_bullets = join [LF] out_lines
    /\ List.length out_lines =
       List.length (splitlines section_text)
       + (List.length new_bullets - bullet_count (splitlines section_text))
    /\ (forall r, In r new_bullets -> In r out_lines)
    /\ (forall line,
          In line (splitlines section_text) ->
          is_bullet_line line = false -> In line out_lines).
Proof.
  destruct (replace_bullets_spec new_bullets section_text)
    as (mid & Heq & Hlen & Hnth).
  set (lines := splitlines section_text) in *.
  set (n := bullet_count lines) in *. set (k := List.length new_bullets) in *.
  exists (mid ++ skipn (Nat.min n k) new_bullets).
  split; [exact Heq|]. split; [|split].
  - rewrite length_app, length_skipn, Hlen. fold k. lia.
  - intros r Hr. apply In_nth_error in Hr as (i & Hi).
    apply in_or_app.
    destruct (Nat.lt_ge_cases i (Nat.min n k)) as [Hlt|Hge].
    + left. destruct (bullet_position lines i) as (j & line & Hj & Hb & Hrk);
        [fold n; lia|].
      apply (nth_error_In _ j). rewrite (Hnth j line Hj), Hb, Hrk.
      assert (Hik : (i <? k) = true) by (apply Nat.ltb_lt; lia).
      rewrite Hik. cbn [andb]. f_equal.
      now apply nth_error_nth.
    + right. apply (nth_error_In _ (i - Nat.min n k)).
      rewrite nth_error_skipn.
      now replace (Nat.min n k + (i - Nat.min n k)) with i by lia.
  - intros line Hin Hb. apply In_nth_error in Hin as (j & Hj).
    apply in_or_app. left. apply (nth_error_In _ j).
    now rewrite (Hnth j line Hj), Hb.
Qed.

Lemma replace_bullets_loses_nothing_witness :
  exists out_lines,
    replace_bullets (text ["Acme Corp"; "- built a scraper"])
      [of_string "- X"; of_string "- Y"]
    = join [LF] out_lines
    /\ List.length out_lines = 3
    /\ In (of_string "- Y") out_lines
    /\ In (of_string "Acme Corp") out_lines.
Proof.
  destruct (replace_bullets_loses_nothing
              (text ["Acme Corp"; "- built a scraper"])
              [of_string "- X"; of_string "- Y"])
    as (out & Heq & Hlen & Hr & Hl).
  exists out. split; [exact Heq|]. split; [exact Hlen|]. split.
  - apply Hr. right. now left.
  - apply Hl; [now left|reflexivity].
Defined.

(* ================================================================== *)
(** * The answer of the service, cleaned *)
(* ================================================================== *)

Lemma lstrip_head (s : str) :
  match lstrip s with
  | [] => True
  | c :: _ => isspace c = false
  end.
Proof.
  induction s as [|c s IH]; simpl; [exact I|].
  destruct (isspace c) eqn:Hc; [exact IH|exact Hc].
Qed.

Lemma lstrip_id (s : str) :
  match s with
  | [] => True
  | c :: _ => isspace c = false
  end ->
  lstrip s = s.
Proof. destruct s as [|c s]; [reflexivity|]. simpl. now intros ->. Qed.

Lemma lstrip_span (s : str) : lstrip s = skipn (span_len isspace s) s.
Proof.
  induction s as [|c s IH]; simpl; [reflexivity|].
  now destruct (isspace c).
Qed.

Lemma lstrip_suffix (s : str) : exists ws, s = ws ++ lstrip s.
Proof.
  exists (firstn (span_len isspace s) s).
  now rewrite lstrip_span, firstn_skipn.
Qed.

Lemma ends_in_rev (p : char -> bool) (l : str) :
  ends_in p (rev l) =
  match l with
  | [] => false
  | c :: _ => p c
  end.
Proof. destruct l as [|c l]; [reflexivity|]. simpl. apply ends_in_snoc. Qed.

Lemma rstrip_ends (s : str) : ends_in isspace (rstrip s) = false.
Proof.
  unfold rstrip. rewrite ends_in_rev.
  pose proof (lstrip_head (rev s)) as H.
  now destruct (lstrip (rev s)).
Qed.

Lemma rstrip_id (s : str) : ends_in isspace s = false -> rstrip s = s.
Proof.
  intros H. unfold rstrip. rewrite <- (rev_involutive s) in H.
  rewrite ends_in_rev in H. rewrite lstrip_id; [apply rev_involutive|].
  now destruct (rev s).
Qed.

Lemma rstrip_prefix (s : str) : exists ws, s = rstrip s ++ ws.
Proof.
  unfold rstrip. destruct (lstrip_suffix (rev s)) as (ws & Hws).
  exists (rev ws). rewrite <- rev_app_distr, <- Hws. symmetry.
  apply rev_involutive.
Qed.

(** A text is stripped when it has no white space at either end. *)
Lemma strip_id (s : str) :
  match s with
  | [] => True
  | c :: _ => isspace c = false
  end ->
  ends_in isspace s = false ->
  strip s = s.
Proof.
  intros Hh He. unfold strip. rewrite (lstrip_id s Hh). now apply rstrip_id.
Qed.

Lemma strip_head (s : str) :
  match strip s with
  | [] => True
  | c :: _ => isspace c = false
  end.
Proof.
  unfold strip. pose proof (lstrip_head s) as H.
  destruct (rstrip_prefix (lstrip s)) as (ws & Hws).
  destruct (rstrip (lstrip s)) as [|c r]; [exact I|].
  rewrite Hws in H. exact H.
Qed.

Lemma strip_ends (s : str) : ends_in isspace (strip s) = false.
Proof. apply rstrip_ends. Qed.

Lemma ends_in_app (p : char -> bool) (a r : str) :
  r <> [] -> ends_in p (a ++ r) = ends_in p r.
Proof.
  intros Hr. induction a as [|c a IH]; [reflexivity|].
  change ((c :: a) ++ r) with (c :: (a ++ r)).
  rewrite ends_in_cons; [exact IH|]. now destruct a, r.
Qed.

Lemma run_Lit (ic : bool) (c : char) (st : state) :
  run (Lit ic c) st =
  match rest st with
  | d :: l' =>
      if lit_matches ic c d
      then [mkState (S (pos st)) (Some d) l' (caps st)] else []
  | [] => []
  end.
Proof. reflexivity. Qed.

(** A literal matches in one way at most: over the characters of the
    subject it compares equal to. *)
Lemma run_Lits_spec (ic : bool) (w : str) :
  forall st,
    if starts_with ic w (rest st) then
      exists st',
        run (Lits ic w) st = [st']
        /\ pos st' = pos st + List.length w
        /\ rest st' = skipn (List.length w) (rest st)
        /\ caps st' = caps st
    else run (Lits ic w) st = [].
Proof.
  induction w as [|c w IH]; intros st.
  - simpl. exists st. repeat split. lia.
  - cbn [starts_with Lits]. rewrite run_Seq, run_Lit.
    destruct (rest st) as [|d l] eqn:Hr; [reflexivity|].
    destruct (lit_matches ic c d); [|reflexivity].
    cbn [andb flat_map]. rewrite app_nil_r.
    specialize (IH (mkState (S (pos st)) (Some d) l (caps st))).
    cbn [rest pos caps] in IH.
    destruct (starts_with ic w l); [|exact IH].
    destruct IH as (st' & Hrun & Hp & Hrs & Hc).
    exists st'. rewrite Hrun, Hp, Hrs, Hc. cbn [List.length skipn].
    repeat split. lia.
Qed.

(** The label pattern matches at the start of the subject only. *)
Lemma match_at_label_pattern (s : str) (i : nat) (pv : option char)
    (l : str) :
  match_at label_pattern s i pv l =
  match pv with
  | None =>
      if starts_with true label l
      then Some (mkMatch s i
                   (i + List.length label
                    + span_len isspace (skipn (List.length label) l)) [])
      else None
  | Some _ => None
  end.
Proof.
  unfold match_at, label_pattern. rewrite run_Seq.
  destruct pv as [d|]; [reflexivity|].
  change (run (Caret false) (mkState i None l [])) with [mkState i None l []].
  cbn [flat_map]. rewrite app_nil_r, run_Seq. fold label.
  pose proof (run_Lits_spec true label (mkState i None l [])) as H.
  cbn [rest pos caps] in H.
  destruct (starts_with true label l).
  - destruct H as (st' & -> & Hp & Hr & Hc). cbn [flat_map].
    destruct (run_Star_head isspace st') as (tl & ->). cbn [app].
    destruct (star_end_pos isspace (caps st') (rest st') (pos st') (prev st'))
      as (Hp2 & _ & Hc2).
    now rewrite Hp2, Hc2, Hp, Hr, Hc.
  - rewrite H. reflexivity.
Qed.

Lemma finditer_from_label_later (s : str) (l : str) :
  forall skip i c, finditer_from label_pattern s skip i (Some c) l = [].
Proof.
  induction l as [|c' l' IH]; intros skip i c; destruct skip as [|n]; simpl;
    try rewrite match_at_label_pattern; auto.
Qed.

(** [re.sub] with the label pattern removes the label at the start of the
    text, in any case, and the white space after it, and nothing else. *)
Lemma sub_label_pattern (s : str) :
  sub label_pattern (fun _ => []) s =
  if starts_with true label s
  then lstrip (skipn (List.length label) s)
  else s.
Proof.
  unfold sub, finditer. destruct s as [|c l]; [reflexivity|].
  cbn [finditer_from]. rewrite match_at_label_pattern.
  destruct (starts_with true label (c :: l)).
  - rewrite finditer_from_label_later. cbn [subst m_start m_end].
    unfold slice. cbn [Nat.sub firstn app]. rewrite lstrip_span.
    rewrite skipn_skipn. f_equal. lia.
  - now rewrite finditer_from_label_later.
Qed.

(** X6 -- What [align_bullet] returns when the service answers: the answer
    stripped, then without the label "Rewritten Bullet Point:" (in any case)
    at its start and the white space after the label.  The result has no
    white space at either end. *)
Theorem align_bullet_cleans_answer (f : str -> str) (job_desc core : str) :
  exists rewritten,
    align_bullet (answers f) job_desc core = Ok rewritten
    /\ rewritten =
       (if starts_with true label (strip (f (prompt_format job_desc core)))
        then lstrip (skipn (List.length label)
                       (strip (f (prompt_format job_desc core))))
        else strip (f (prompt_format job_desc core)))
    /\ strip rewritten = rewritten.
Proof.
  set (t := strip (f (prompt_format job_desc core))).
  exists (sub label_pattern (fun _ => []) t).
  split; [reflexivity|]. rewrite sub_label_pattern. split; [reflexivity|].
  destruct (starts_with true label t).
  - apply strip_id; [apply lstrip_head|].
    destruct (lstrip (skipn (List.length label) t)) as [|c r] eqn:Hr;
      [reflexivity|].
    destruct (lstrip_suffix (skipn (List.length label) t)) as (ws & Hws).
    rewrite <- (strip_ends (f (prompt_format job_desc core))). fold t.
    rewrite <- (firstn_skipn (List.length label) t) at 1.
    rewrite Hws, Hr, app_assoc. symmetry. now apply ends_in_app.
  - apply strip_id; [apply strip_head|apply strip_ends].
Qed.

(* ================================================================== *)
(** * The rewriter and a service that fails *)
(* ================================================================== *)

Section StatefulRewriter.

Variable World : Type.
Variable llm : str -> World -> outcome str * World.
Variable job_desc : str.

Lemma stateful_align_bullet_raises (core : str) (w : World) (e : str)
    (w' : World) :
  llm (prompt_format job_desc core) w = (Raised e, w') ->
  Stateful.align_bullet llm job_desc core w = (Raised e, w').
Proof. intros H. unfold Stateful.align_bullet. now rewrite H. Qed.

Lemma stateful_align_bullet_returns (core : str) (w : World) (answer : str)
    (w' : World) :
  llm (prompt_format job_desc core) w = (Ok answer, w') ->
  Stateful.align_bullet llm job_desc core w = (Ok (cleaned answer), w').
Proof.
  intros H. unfold Stateful.align_bullet, cleaned.
  now rewrite H, sub_label_pattern.
Qed.

Lemma stateful_for_bullets_step (b : str) (bs aligned : list str) (w : World) :
  Stateful.for_bullets llm job_desc (b :: bs) aligned w =
  match Stateful.align_bullet llm job_desc (snd (split_bullet b)) w with
  | (Ok new_core, w') =>
      Stateful.for_bullets llm job_desc bs
        (aligned ++ [fst (split_bullet b) ++ new_core]) w'
  | (Raised e, w') => (Raised e, w')
  end.
Proof. simpl. destruct (split_bullet b). reflexivity. Qed.

Lemma answered_cons (b : str) (bs : list str) (w : World) :
  answered llm (map (prompt_of job_desc) (b :: bs)) w =
  match llm (prompt_format job_desc (snd (split_bullet b))) w with
  | (Ok a, w') =>
      match answered llm (map (prompt_of job_desc) bs) w' with
      | Some (al, w'') => Some (a :: al, w'')
      | None => None
      end
  | (Raised _, _) => None
  end.
Proof. reflexivity. Qed.

(** While the calls are answered, the loop appends one line per bullet, in
    order: the prefix of the bullet and the cleaned answer to its call. *)
Lemma stateful_for_bullets_answered (bullets : list str) :
  forall aligned w answers w',
    answered llm (map (prompt_of job_desc) bullets) w = Some (answers, w') ->
    Stateful.for_bullets llm job_desc bullets aligned w =
    (Ok (aligned
         ++ map (fun ba => fst (split_bullet (fst ba)) ++ cleaned (snd ba))
              (combine bullets answers)), w')
    /\ List.length answers = List.length bullets.
Proof.
  induction bullets as [|b bs IH]; intros aligned w answers w' H.
  - injection H as <- <-. cbn. now rewrite app_nil_r.
  - rewrite answered_cons in H.
    destruct (llm (prompt_format job_desc (snd (split_bullet b))) w)
      as [[a|e] w1] eqn:Hl; [|discriminate].
    destruct (answered llm (map (prompt_of job_desc) bs) w1)
      as [[al w2]|] eqn:Ha; [|discriminate].
    injection H as <- <-.
    rewrite stateful_for_bullets_step, (stateful_align_bullet_returns _ _ _ _ Hl).
    destruct (IH (aligned ++ [fst (split_bullet b) ++ cleaned a]) w1 al w2 Ha)
      as (-> & Hlen).
    cbn [combine map fst snd List.length]. rewrite <- app_assoc, Hlen.
    split; reflexivity.
Qed.

(** The first call that raises ends the loop with its error, in the state
    that call leaves: no later call is made. *)
Lemma stateful_for_bullets_raises (before : list str) (b : str)
    (after : list str) (e : str) (w2 : World) :
  forall aligned w answers w1,
    answered llm (map (prompt_of job_desc) before) w = Some (answers, w1) ->
    llm (prompt_of job_desc b) w1 = (Raised e, w2) ->
    Stateful.for_bullets llm job_desc (before ++ b :: after) aligned w
    = (Raised e, w2).
Proof.
  induction before as [|b' bs IH]; intros aligned w answers w1 H Hb.
  - injection H as <- <-. cbn [app]. rewrite stateful_for_bullets_step.
    now rewrite (stateful_align_bullet_raises _ _ _ _ Hb).
  - rewrite answered_cons in H.
    destruct (llm (prompt_format job_desc (snd (split_bullet b'))) w)
      as [[a|e'] w0] eqn:Hl; [|discriminate].
    destruct (answered llm (map (prompt_of job_desc) bs) w0)
      as [[al w3]|] eqn:Ha; [|discriminate].
    injection H as <- <-.
    change ((b' :: bs) ++ b :: after) with (b' :: (bs ++ b :: after)).
    rewrite stateful_for_bullets_step, (stateful_align_bullet_returns _ _ _ _ Hl).
    now apply (IH _ w0 al w3).
Qed.

End StatefulRewriter.

(** With a service without a state the two functions are the functions
    over a service that is a function of its prompt. *)
Lemma stateless_align_bullet {World : Type} (pure : str -> outcome str)
    (job_desc core : str) (w : World) :
  Stateful.align_bullet (stateless pure) job_desc core w
  = (align_bullet pure job_desc core, w).
Proof.
  unfold Stateful.align_bullet, align_bullet, stateless.
  now destruct (pure (prompt_format job_desc core)).
Qed.

Lemma stateless_for_bullets {World : Type} (pure : str -> outcome str)
    (job_desc : str) (bullets : list str) :
  forall aligned (w : World),
    Stateful.for_bullets (stateless pure) job_desc bullets aligned w
    = (for_bullets pure job_desc bullets aligned, w).
Proof.
  induction bullets as [|b bs IH]; intros aligned w; [reflexivity|].
  rewrite stateful_for_bullets_step, for_bullets_step, stateless_align_bullet.
  destruct (align_bullet pure job_desc (snd (split_bullet b))) as [c|e];
    [|reflexivity].
  cbn [bind]. apply IH.
Qed.

Lemma nth_error_map_combine {A B C : Type} (g : A * B -> C) (la : list A) :
  forall (lb : list B) i a b,
    nth_error la i = Some a -> nth_error lb i = Some b ->
    nth_error (map g (combine la lb)) i = Some (g (a, b)).
Proof.
  induction la as [|x la IH]; intros [|y lb] [|i] a b Ha Hb;
    simpl in *; try discriminate.
  - congruence.
  - now apply IH.
Qed.

(** C2, as stated, fails: with the service down, neither function returns
    the original bullet; both raise the error of the service. *)
Lemma rewriter_has_no_fallback :
  align_bullet (unreachable (of_string "connection refused"))
    (of_string "Data engineer") (of_string "Built a web scraper")
  = Raised (of_string "connection refused")
  /\ align_bullets_to_job (unreachable (of_string "connection refused"))
       (of_string "Data engineer") [of_string "- Built a web scraper"]
     = Raised (of_string "connection refused")
  /\ align_bullets_to_job (unreachable (of_string "connection refused"))
       (of_string "Data engineer") [of_string "- Built a web scraper"]
     <> Ok [of_string "- Built a web scraper"].
Proof.
  split; [reflexivity|]. split; [reflexivity|]. discriminate.
Qed.

(** C2, amended -- The rewriter has no handler of its own, in whatever state
    the service is and however its earlier calls went.  When the service
    answers the call made for a bullet, [align_bullet] returns the cleaned
    answer: the answer without the white space at its ends and without the
    label "Rewritten Bullet Point:" at its start (in any case) and the white
    space after it.  When that call raises, [align_bullet] raises the same
    error.  [align_bullets_to_job] calls the service once per bullet, in
    order.  When every call is answered it returns one line per bullet, the
    i-th being the prefix of the i-th bullet followed by the cleaned answer
    to its call.  When a call raises, it raises that error at the first such
    bullet, makes no later call and returns no line, also when the same
    prompt was answered for an earlier bullet.  With a service whose calls
    depend on the prompt only, the two functions are the functions over a
    service that is a function of its prompt. *)
Theorem rewriter_propagates_service_failure (World : Type)
    (llm : str -> World -> outcome str * World) (job_desc : str) :
  (forall core w e w',
     llm (prompt_format job_desc core) w = (Raised e, w') ->
     Stateful.align_bullet llm job_desc core w = (Raised e, w'))
  /\ (forall core w answer w',
        llm (prompt_format job_desc core) w = (Ok answer, w') ->
        Stateful.align_bullet llm job_desc core w = (Ok (cleaned answer), w'))
  /\ (forall before b after w answers w1 e w2,
        answered llm (map (prompt_of job_desc) before) w = Some (answers, w1) ->
        llm (prompt_of job_desc b) w1 = (Raised e, w2) ->
        Stateful.align_bullets_to_job llm job_desc (before ++ b :: after) w
        = (Raised e, w2))
  /\ (forall bullets w answers w',
        answered llm (map (prompt_of job_desc) bullets) w
        = Some (answers, w') ->
        exists aligned,
          Stateful.align_bullets_to_job llm job_desc bullets w
          = (Ok aligned, w')
          /\ List.length aligned = List.length bullets
          /\ forall i b a,
               nth_error bullets i = Some b ->
               nth_error answers i = Some a ->
               nth_error aligned i
               = Some (fst (split_bullet b) ++ cleaned a))
  /\ (forall pure,
        llm = stateless pure ->
        (forall core w,
           Stateful.align_bullet llm job_desc core w
           = (align_bullet pure job_desc core, w))
        /\ (forall bullets w,
              Stateful.align_bullets_to_job llm job_desc bullets w
              = (align_bullets_to_job pure job_desc bullets, w))).
Proof.
  split; [exact (stateful_align_bullet_raises World llm job_desc)|].
  split; [exact (stateful_align_bullet_returns World llm job_desc)|].
  split; [|split].
  - intros before b after w answers w1 e w2 H Hb.
    unfold Stateful.align_bullets_to_job.
    exact (stateful_for_bullets_raises World llm job_desc before b after e w2
             [] w answers w1 H Hb).
  - intros bullets w answers w' H. unfold Stateful.align_bullets_to_job.
    destruct (stateful_for_bullets_answered World llm job_desc bullets
                [] w answers w' H) as (-> & Hlen).
    eexists. split; [reflexivity|]. cbn [app]. split.
    + rewrite length_map, length_combine, Hlen. apply Nat.min_id.
    + intros i b a Hb Ha.
      now rewrite (nth_error_map_combine _ _ _ _ _ _ Hb Ha).
  - intros pure ->. split.
    + intros core w. apply stateless_align_bullet.
    + intros bullets w. unfold Stateful.align_bullets_to_job,
        align_bullets_to_job. apply stateless_for_bullets.
Qed.

Lemma rewriter_propagates_service_failure_witness :
  Stateful.align_bullet metered (of_string "Data engineer")
    (of_string "Led a team") 0
  = (Raised (of_string "quota exceeded"), 0)
  /\ Stateful.align_bullet metered (of_string "Data engineer")
       (of_string "Led a team") 1
     = (Ok (of_string "Led engineers"), 0)
  /\ Stateful.align_bullets_to_job metered (of_string "Data engineer")
       ([of_string "* Led a team"]
        ++ of_string "- Led a team" :: [of_string "- Shipped it"]) 1
     = (Raised (of_string "quota exceeded"), 0)
  /\ (exists aligned,
        Stateful.align_bullets_to_job metered (of_string "Data engineer")
          [of_string "* Led a team"; of_string "- Led a team"] 2
        = (Ok aligned, 0)
        /\ List.length aligned = 2
        /\ nth_error aligned 1 = Some (of_string "- Led engineers"))
  /\ align_bullets_to_job flaky (of_string "Data engineer")
       [of_string "* Led a team"; of_string "- Built a scraper";
        of_string "- Shipped it"]
     = Raised (of_string "timeout").
Proof.
  destruct (rewriter_propagates_service_failure nat metered
              (of_string "Data engineer")) as (H1 & H2 & H3 & H4 & _).
  split; [apply H1; reflexivity|].
  split; [exact (H2 (of_string "Led a team") 1 _ 0 eq_refl)|].
  split.
  - apply (H3 [of_string "* Led a team"] (of_string "- Led a team")
              [of_string "- Shipped it"] 1
              [of_string "Rewritten Bullet Point: Led engineers"] 0);
      vm_compute; reflexivity.
  - split.
    + destruct (H4 [of_string "* Led a team"; of_string "- Led a team"] 2
                  [of_string "Rewritten Bullet Point: Led engineers";
                   of_string "Rewritten Bullet Point: Led engineers"] 0)
        as (aligned & Heq & Hlen & Hnth); [vm_compute; reflexivity|].
      exists aligned. split; [exact Heq|]. split; [exact Hlen|].
      exact (Hnth 1 (of_string "- Led a team")
               (of_string "Rewritten Bullet Point: Led engineers")
               eq_refl eq_refl).
    + destruct (rewriter_propagates_service_failure unit (stateless flaky)
                  (of_string "Data engineer")) as (_ & _ & G3 & _ & G5).
      destruct (G5 flaky eq_refl) as (_ & Gpure).
      pose proof (G3 [of_string "* Led a team"]
                    (of_string "- Built a scraper")
                    [of_string "- Shipped it"] tt
                    [of_string "Rewritten Bullet Point: Led engineers"] tt
                    (of_string "timeout") tt) as G.
      cbn [app] in G. rewrite Gpure in G.
      assert (Hr : (align_bullets_to_job flaky (of_string "Data engineer")
                      [of_string "* Led a team"; of_string "- Built a scraper";
                       of_string "- Shipped it"], tt)
                   = (Raised (of_string "timeout"), tt))
        by (apply G; vm_compute; reflexivity).
      exact (f_equal fst Hr).
Defined.

(* ================================================================== *)
(** * A document in which the heading pattern matches once *)
(* ================================================================== *)





(* ================================================================== *)
(** * The orchestrator *)
(* ================================================================== *)

Lemma lstrip_nil (s : str) : lstrip s = [] -> forallb isspace s = true.
Proof.
  induction s as [|c s IH]; simpl; [reflexivity|].
  destruct (isspace c); [exact IH|discriminate].
Qed.

Lemma forallb_rev (p : char -> bool) (s : str) :
  forallb p (rev s) = true -> forallb p s = true.
Proof.
  rewrite !forallb_forall. intros H c Hc. apply H. now apply in_rev in Hc.
Qed.

Lemma strip_nil (s : str) : strip s = [] -> forallb isspace s = true.
Proof.
  unfold strip, rstrip. intros H.
  assert (Hl : lstrip (rev (lstrip s)) = []).
  { rewrite <- (rev_involutive (lstrip (rev (lstrip s)))), H. reflexivity. }
  apply lstrip_nil, forallb_rev in Hl.
  pose proof (lstrip_head s) as Hh.
  destruct (lstrip s) as [|c r] eqn:Hs; [now apply lstrip_nil|].
  simpl in Hl. rewrite Hh in Hl. discriminate.
Qed.

Lemma glyph_not_space (c : char) : glyph c = true -> isspace c = false.
Proof.
  unfold glyph. intros H.
  apply orb_true_iff in H as [H|H]; [apply orb_true_iff in H as [H|H]|];
    apply N.eqb_eq in H; subst c; reflexivity.
Qed.

(** A bullet line is not blank. *)
Lemma bullet_line_not_blank (b : str) :
  is_bullet_line b = true -> strip b <> [].
Proof.
  rewrite is_bullet_line_marker. unfold spec_marker_length.
  destruct (skipn (span_len tab_or_space b) b) as [|g [|w r]] eqn:Hskip;
    try discriminate.
  destruct (glyph g) eqn:Hg; [|discriminate]. intros _ Hnil.
  apply strip_nil in Hnil. rewrite forallb_forall in Hnil.
  assert (Hin : In g b).
  { rewrite <- (firstn_skipn (span_len tab_or_space b) b), Hskip.
    apply in_or_app. right. now left. }
  specialize (Hnil g Hin). rewrite (glyph_not_space g Hg) in Hnil.
  discriminate.
Qed.

Section Orchestrator.

Variable rewrite : str -> list str -> outcome (list str).

(** X9 -- One section is rewritten exactly when the body found by the locator is
    a bullet line; the rewriting stage is then called with that one bullet,
    and in every other case the document stays as it is and the rewriting
    stage is not called. *)
Theorem section_step_rewrites_one_bullet
    (job_description tailored section_name : str) :
  section_step rewrite job_description tailored section_name =
  if is_bullet_line (extract_section tailored section_name) then
    new_bullets <-
      rewrite job_description [extract_section tailored section_name] ;;
    Ok (replace_section tailored section_name
          (replace_bullets (extract_section tailored section_name)
             new_bullets))
  else Ok tailored.
Proof.
  unfold section_step.
  rewrite (extract_bullets_no_LF (extract_section tailored section_name))
    by apply not_In_no_LF, extract_section_one_line.
  pose proof (bullet_line_not_blank (extract_section tailored section_name))
    as Hblank.
  destruct (is_bullet_line (extract_section tailored section_name)).
  - destruct (strip (extract_section tailored section_name));
      [now elim Hblank|reflexivity].
  - now destruct (strip (extract_section tailored section_name)).
Qed.

(** X11 -- A document in which neither heading is found comes back as it is, and
    the rewriting stage is not called. *)
Theorem tailor_text_without_sections (resume_text job_description : str) :
  (forall section_name,
     In section_name section_names ->
     search (section_pattern section_name) resume_text = None) ->
  tailor_text rewrite resume_text job_description = Ok resume_text.
Proof.
  intros Hnone. unfold tailor_text.
  assert (Hstep : forall names,
            (forall n, In n names -> In n section_names) ->
            for_sections rewrite job_description names resume_text
            = Ok resume_text).
  { induction names as [|n names IH]; intros Hsub; [reflexivity|].
    cbn [for_sections]. unfold section_step.
    pose proof (replace_section_first_span resume_text n []) as Hspan.
    rewrite (Hnone n (Hsub n (or_introl eq_refl))) in Hspan.
    destruct Hspan as (-> & _).
    change (strip []) with (@nil char). cbn [bind].
    apply IH. intros n' Hn'. apply Hsub. now right. }
  apply Hstep. auto.
Qed.

End Orchestrator.

Lemma tailor_text_without_sections_witness :
  tailor_text (align_bullets_to_job (unreachable (of_string "down")))
    (text ["Jane Doe"; "EDUCATION"; "- BS in Computer Science"])
    (of_string "Data engineer")
  = Ok (text ["Jane Doe"; "EDUCATION"; "- BS in Computer Science"]).
Proof.
  apply tailor_text_without_sections.
  intros n [<-|[<-|[]]]; vm_compute; reflexivity.
Defined.

(** X12 -- With the service down the orchestrator never returns a changed
    document: it returns the document as it is, when no section has a
    bullet to rewrite, or it raises the error of the service. *)
Theorem tailor_service_down (load_resume_text : str -> outcome str)
    (e resume_path job_description resume_text : str) :
  load_resume_text resume_path = Ok resume_text ->
  tailor_resume_file load_resume_text (unreachable e) resume_path
    job_description = Ok resume_text
  \/ tailor_resume_file load_resume_text (unreachable e) resume_path
       job_description = Raised e.
Proof.
  intros Hload. unfold tailor_resume_file, tailor_text. rewrite Hload.
  cbn [bind]. generalize section_names. intros names.
  induction names as [|n names IH]; [now left|].
  cbn [for_sections]. unfold section_step.
  destruct (strip (extract_section resume_text n)); [exact IH|].
  destruct (extract_bullets (extract_section resume_text n)) as [|b bs];
    [exact IH|].
  right. unfold align_bullets_to_job. cbn [for_bullets].
  destruct (split_bullet b). reflexivity.
Qed.

Lemma tailor_service_down_witness :
  tailor_resume_file (fun _ => Ok (text ["PROJECTS"; "- Built a web scraper"]))
    (unreachable (of_string "connection refused"))
    (of_string "resume.pdf") (of_string "Data engineer")
  = Raised (of_string "connection refused").
Proof.
  destruct (tailor_service_down
              (fun _ => Ok (text ["PROJECTS"; "- Built a web scraper"]))
              (of_string "connection refused") (of_string "resume.pdf")
              (of_string "Data engineer")
              (text ["PROJECTS"; "- Built a web scraper"]) eq_refl)
    as [H|H]; [vm_compute in H; discriminate H|exact H].
Defined.

(* ================================================================== *)
(** * Extract, rewrite and splice on a body of one line *)
(* ================================================================== *)

Lemma splitlines_one_line (s : str) :
  no_linebreak s = true -> s <> [] -> splitlines s = [s].
Proof.
  induction s as [|c s IH]; intros Hno Hne; [contradiction|].
  simpl in Hno. apply andb_true_iff in Hno as [Hc Hs].
  apply negb_true_iff in Hc. rewrite splitlines_plain by exact Hc.
  destruct s as [|d s']; [reflexivity|].
  now rewrite IH by (exact Hs || discriminate).
Qed.

Lemma no_linebreak_no_LF (s : str) : no_linebreak s = true -> no_LF s = true.
Proof.
  unfold no_linebreak, no_LF. rewrite !forallb_forall. intros H c Hc.
  specialize (H c Hc). unfold dot. apply negb_true_iff.
  apply N.eqb_neq. intros ->. discriminate.
Qed.

Lemma is_bullet_line_nil : is_bullet_line [] = false.
Proof. reflexivity. Qed.

(** One replacement put into a body of one line that is a bullet. *)
Lemma replace_bullets_one_bullet_line (s r : str) :
  no_linebreak s = true -> is_bullet_line s = true ->
  replace_bullets s [r] = r.
Proof.
  intros Hno Hb. unfold replace_bullets.
  rewrite splitlines_one_line; [|exact Hno|].
  - cbn [for_lines]. rewrite Hb. reflexivity.
  - intros ->. rewrite is_bullet_line_nil in Hb. discriminate.
Qed.

(** X3 -- On a body of one line, extracting the bullets, rewriting each with any
    function and splicing the results back rewrites the body when it is a
    bullet line and leaves it as it is otherwise. *)
Theorem extract_then_replace_one_line (g : str -> str) (section_text : str) :
  no_linebreak section_text = true ->
  replace_bullets section_text (map g (extract_bullets section_text)) =
  if is_bullet_line section_text then g section_text else section_text.
Proof.
  intros Hno.
  rewrite extract_bullets_no_LF by now apply no_linebreak_no_LF.
  destruct (is_bullet_line section_text) eqn:Hb; cbn [map].
  - now apply replace_bullets_one_bullet_line.
  - rewrite replace_bullets_nil.
    destruct section_text as [|c s]; [reflexivity|].
    now rewrite splitlines_one_line by (exact Hno || discriminate).
Qed.

Lemma extract_then_replace_one_line_witness :
  replace_bullets (of_string "- Built a web scraper")
    (map (fun b => b ++ of_string " in Python")
       (extract_bullets (of_string "- Built a web scraper")))
  = of_string "- Built a web scraper in Python".
Proof.
  exact (extract_then_replace_one_line (fun b => b ++ of_string " in Python")
           (of_string "- Built a web scraper") eq_refl).
Defined.



(* ================================================================== *)
(** * One marker rule for the extractor, the splicer and the rewriter *)
(* ================================================================== *)

Lemma re_match_marker_pattern (b : str) :
  is_match (re_match marker_pattern b) =
  match spec_marker_length b with
  | Some _ => true
  | None => false
  end.
Proof.
  unfold re_match, match_at, marker_pattern.
  rewrite run_Seq. change (run (Caret false) (mkState 0 None b []))
    with [mkState 0 None b []].
  cbn [flat_map]. rewrite app_nil_r, run_Seq, run_Group.
  fold marker_part. cbn [pos].
  pose proof (run_marker_part b []) as H.
  destruct (spec_marker_length b) as [n|].
  - destruct H as (st & tl & -> & _).
    cbn [map flat_map]. rewrite run_Group.
    destruct (run_Star_head dot (set_cap 1 0 st)) as (tl' & ->).
    reflexivity.
  - rewrite H. reflexivity.
Qed.

Lemma forallb_firstn_span (p : char -> bool) (l : str) :
  forallb p (firstn (span_len p l) l) = true.
Proof.
  induction l as [|c l IH]; simpl; [reflexivity|].
  destruct (p c) eqn:Hp; [|reflexivity]. simpl. now rewrite Hp.
Qed.

Lemma span_len_app (p : char -> bool) (a b : str) :
  forallb p a = true ->
  match b with
  | [] => True
  | c :: _ => p c = false
  end ->
  span_len p (a ++ b) = List.length a.
Proof.
  intros Ha Hb. induction a as [|c a IH]; simpl in *.
  - destruct b as [|d b]; [reflexivity|]. simpl. now rewrite Hb.
  - apply andb_true_iff in Ha as [-> Ha]. now rewrite IH.
Qed.

Lemma glyph_not_tab_or_space (c : char) :
  glyph c = true -> tab_or_space c = false.
Proof.
  intros Hg. destruct (tab_or_space c) eqn:Ht; [|reflexivity].
  apply tab_or_space_not_glyph in Ht. congruence.
Qed.

(** X5 -- The three patterns of the program that look for a bullet accept the
    same lines: the pattern of the rewriter, the pattern of the extractor at
    the start of a text and the test of the splicer hold exactly for a line
    made of tabs and spaces, a glyph among hyphen, asterisk and bullet, a
    white-space character, and anything after. *)
Theorem bullet_tests_agree (line : str) :
  is_match (re_match marker_pattern line) = is_bullet_line line
  /\ is_match (match_at (bullet_pattern true) line 0 None line)
     = is_bullet_line line
  /\ (is_bullet_line line = true <->
      exists indent g w r,
        line = indent ++ g :: w :: r
        /\ forallb tab_or_space indent = true
        /\ glyph g = true /\ isspace w = true).
Proof.
  rewrite re_match_marker_pattern, match_at_bullet_pattern,
    is_bullet_line_marker.
  cbn [line_start]. repeat split.
  - now destruct (spec_marker_length line).
  - unfold spec_marker_length. intros H.
    destruct (skipn (span_len tab_or_space line) line) as [|g [|w r]] eqn:Hs;
      try discriminate.
    destruct (glyph g && isspace w) eqn:Hgw; [|discriminate].
    apply andb_true_iff in Hgw as [Hg Hw].
    exists (firstn (span_len tab_or_space line) line), g, w, r.
    rewrite <- Hs, firstn_skipn. repeat split; auto.
    apply forallb_firstn_span.
  - intros (indent & g & w & r & -> & Hi & Hg & Hw).
    unfold spec_marker_length.
    rewrite span_len_app by (exact Hi || now apply glyph_not_tab_or_space).
    rewrite skipn_app, skipn_all, Nat.sub_diag. cbn [skipn app].
    now rewrite Hg, Hw.
Qed.

Lemma bullet_tests_agree_witness :
  is_bullet_line (of_string "  * Led a team of 5") = true.
Proof.
  apply (proj2 (proj2 (bullet_tests_agree (of_string "  * Led a team of 5")))).
  exists (of_string "  "), 42%N, 32%N, (of_string "Led a team of 5").
  repeat split.
Defined.

(** C8 -- Marker preservation and default marker.  The rewriter splits a
    bullet by the marker rule of the extractor and of the splicer.  A bullet
    with a marker is split into the marker, its prefix up to the end of the
    white space after the glyph, and the core, the rest of its first line
    stripped (the rest of the bullet when it is one line).  A bullet without
    a marker is split into the default marker, a hyphen and a space, and the
    core, the whole bullet stripped.  The service is called for the core,
    and when it answers, the line returned for the bullet is its marker, or
    the default marker, followed by the cleaned answer: it begins with the
    marker of the bullet, or with the default marker. *)
Theorem align_bullets_to_job_marker (f : str -> str) (job_desc : str)
    (bullets : list str) :
  exists aligned,
    align_bullets_to_job (answers f) job_desc bullets = Ok aligned
    /\ forall i b,
         nth_error bullets i = Some b ->
         exists out new_core,
           nth_error aligned i = Some out
           /\ align_bullet (answers f) job_desc (snd (split_bullet b))
              = Ok new_core
           /\ new_core
              = cleaned (f (prompt_format job_desc (snd (split_bullet b))))
           /\ match spec_marker_length b with
              | Some n =>
                  is_bullet_line b = true
                  /\ is_match (match_at (bullet_pattern true) b 0 None b)
                     = true
                  /\ split_bullet b
                     = (firstn n b,
                        strip (firstn (span_len dot (skipn n b)) (skipn n b)))
                  /\ (no_LF b = true ->
                      split_bullet b = (firstn n b, strip (skipn n b)))
                  /\ out = firstn n b ++ new_core
                  /\ is_prefix (firstn n b) out
              | None =>
                  is_bullet_line b = false
                  /\ is_match (match_at (bullet_pattern true) b 0 None b)
                     = false
                  /\ split_bullet b = (of_string "- ", strip b)
                  /\ out = of_string "- " ++ new_core
                  /\ is_prefix (of_string "- ") out
              end.
Proof.
  exists (map (rewritten_line (answers f) job_desc) bullets).
  split; [apply align_bullets_to_job_answers|].
  intros i b Hi.
  destruct (rewritten_line_answers f job_desc b) as (new_core & Hc & Hl).
  exists (fst (split_bullet b) ++ new_core), new_core.
  split; [rewrite nth_error_map, Hi; cbn [option_map]; now rewrite Hl|].
  split; [exact Hc|].
  split.
  { unfold align_bullet, answers in Hc. cbn [bind] in Hc.
    injection Hc as <-. unfold cleaned. now rewrite sub_label_pattern. }
  clear Hc Hl.
  rewrite is_bullet_line_marker, match_at_bullet_pattern. cbn [line_start].
  rewrite !split_bullet_marker.
  destruct (spec_marker_length b) as [n|]; cbn [fst is_match].
  - split; [reflexivity|]. split; [reflexivity|]. split; [reflexivity|].
    split; [|split; [reflexivity|now exists new_core]].
    intros Hb. unfold no_LF in Hb.
    rewrite (span_len_all dot (skipn n b)) by now apply forallb_skipn.
    now rewrite firstn_all.
  - repeat split. now exists new_core.
Qed.

Lemma align_bullets_to_job_marker_witness :
  exists aligned out1 out2,
    align_bullets_to_job
      (answers (fun _ => of_string "Managed a team of five engineers"))
      (of_string "Engineering manager")
      [of_string "  * Led a team of 5"; of_string "Led a team of 5"]
    = Ok aligned
    /\ split_bullet (of_string "  * Led a team of 5")
       = (of_string "  * ", of_string "Led a team of 5")
    /\ nth_error aligned 0 = Some out1
    /\ out1 = of_string "  * Managed a team of five engineers"
    /\ split_bullet (of_string "Led a team of 5")
       = (of_string "- ", of_string "Led a team of 5")
    /\ nth_error aligned 1 = Some out2
    /\ out2 = of_string "- Managed a team of five engineers".
Proof.
  destruct (align_bullets_to_job_marker
              (fun _ => of_string "Managed a team of five engineers")
              (of_string "Engineering manager")
              [of_string "  * Led a team of 5"; of_string "Led a team of 5"])
    as (aligned & Heq & Hnth).
  destruct (Hnth 0 (of_string "  * Led a team of 5") eq_refl)
    as (out1 & c1 & Ho1 & _ & Hc1 & H1).
  destruct (Hnth 1 (of_string "Led a team of 5") eq_refl)
    as (out2 & c2 & Ho2 & _ & Hc2 & H2).
  vm_compute in Hc1, Hc2, H1, H2.
  destruct H1 as (_ & _ & Hs1 & _ & Hout1 & _).
  destruct H2 as (_ & _ & Hs2 & Hout2 & _).
  subst c1 c2.
  exists aligned, out1, out2.
  split; [exact Heq|]. split; [vm_compute; reflexivity|].
  split; [exact Ho1|]. split; [rewrite Hout1; vm_compute; reflexivity|].
  split; [vm_compute; reflexivity|].
  split; [exact Ho2|]. rewrite Hout2. vm_compute. reflexivity.
Defined.

(* ================================================================== *)
(** * The locator and the splicer on every document *)
(* ================================================================== *)



(* ================================================================== *)
(** * The loader *)
(* ================================================================== *)

Lemma basename_no_sep (is_sep : char -> bool) (name : str) :
  existsb is_sep name = false -> basename is_sep name = name.
Proof.
  induction name as [|c s IH]; [reflexivity|]. simpl. intros H.
  apply orb_false_iff in H as [Hc Hs]. now rewrite Hs, Hc.
Qed.

Lemma existsb_ends_in (p : char -> bool) (s : str) :
  ends_in p s = true -> existsb p s = true.
Proof.
  induction s as [|c s IH]; [discriminate|].
  destruct s as [|d s']; simpl in *.
  - intros ->. reflexivity.
  - intros H. rewrite (IH H). apply orb_true_r.
Qed.

(** The last component of a directory part followed by a name is the
    name. *)
Lemma basename_app (is_sep : char -> bool) (dir name : str) :
  dir = [] \/ ends_in is_sep dir = true ->
  existsb is_sep name = false ->
  basename is_sep (dir ++ name) = name.
Proof.
  intros Hdir Hname. induction dir as [|c d IH].
  - now apply basename_no_sep.
  - destruct Hdir as [Hd|Hd]; [discriminate|].
    change ((c :: d) ++ name) with (c :: (d ++ name)). cbn [basename].
    rewrite existsb_app, Hname, orb_false_r.
    destruct d as [|c' d'].
    + simpl in Hd. cbn [existsb app]. now rewrite Hd.
    + rewrite ends_in_cons in Hd by discriminate.
      rewrite (existsb_ends_in _ _ Hd). apply IH. now right.
Qed.

Lemma drop_dots_app (dots tl : str) :
  forallb (N.eqb extsep) dots = true ->
  match tl with
  | [] => True
  | c :: _ => N.eqb c extsep = false
  end ->
  drop_dots (dots ++ tl) = tl.
Proof.
  intros Hd Ht. induction dots as [|d dots IH]; cbn [forallb app] in *.
  - destruct tl as [|c tl]; [reflexivity|]. cbn [drop_dots]. now rewrite Ht.
  - apply andb_true_iff in Hd as [Hd Hds]. apply N.eqb_eq in Hd. subst d.
    cbn [drop_dots]. rewrite N.eqb_refl. now apply IH.
Qed.

Lemma last_dot_suffix_none (s : str) :
  existsb (N.eqb extsep) s = false -> last_dot_suffix s = [].
Proof.
  induction s as [|c s IH]; [reflexivity|].
  cbn [existsb last_dot_suffix]. intros H.
  apply orb_false_iff in H as [Hc Hs]. rewrite (IH Hs).
  rewrite N.eqb_sym in Hc. now rewrite Hc.
Qed.

Lemma last_dot_suffix_app (pre e : str) :
  existsb (N.eqb extsep) e = false ->
  last_dot_suffix (pre ++ extsep :: e) = extsep :: e.
Proof.
  intros He. induction pre as [|c pre IH].
  - cbn [app last_dot_suffix]. rewrite (last_dot_suffix_none e He).
    now rewrite N.eqb_refl.
  - change ((c :: pre) ++ extsep :: e) with (c :: (pre ++ extsep :: e)).
    cbn [last_dot_suffix]. now rewrite IH.
Qed.

Lemma eqb_str_eq (a b : str) : eqb_str a b = true <-> a = b.
Proof.
  revert b. induction a as [|c a IH]; intros [|d b]; simpl;
    try (split; (reflexivity || discriminate)).
  rewrite andb_true_iff, N.eqb_eq, IH. split.
  - now intros [-> ->].
  - intros H. injection H as -> ->. now split.
Qed.

Section Loader.

Variable is_sep : char -> bool.
Variable lower : str -> str.
Variable page : Type.
Variable pdf_pages : str -> outcome (list page).
Variable extract_text : page -> outcome (option str).
Variable docx2txt_process : str -> outcome str.

(** What is used of [str.lower]: on ASCII text it lowers the letters A to Z
    and nothing else. *)
Hypothesis lower_ascii : forall s, is_ascii s = true -> lower s = ascii_lower s.

Let load := load_resume_text is_sep lower page pdf_pages extract_text
              docx2txt_process.

(** The extension of a path whose last component has a name before its
    last period. *)
Lemma splitext_ext_named (dir dots : str) (c : char) (mid e : str) :
  dir = [] \/ ends_in is_sep dir = true ->
  existsb is_sep (dots ++ c :: mid ++ extsep :: e) = false ->
  forallb (N.eqb extsep) dots = true ->
  N.eqb c extsep = false ->
  existsb (N.eqb extsep) e = false ->
  splitext_ext is_sep (dir ++ dots ++ c :: mid ++ extsep :: e) = extsep :: e.
Proof.
  intros Hdir Hsep Hdots Hc He. unfold splitext_ext.
  rewrite basename_app by assumption.
  rewrite drop_dots_app by assumption.
  change (c :: mid ++ extsep :: e) with ((c :: mid) ++ extsep :: e).
  now apply last_dot_suffix_app.
Qed.

(** X13 -- The file is chosen by its extension, whatever the case of its letters
    and whatever the directory: what follows the last period of the file
    name decides between the PDF reader, the DOCX reader and the error that
    names the extension in lower case. *)
Theorem load_resume_text_by_extension (dir dots : str) (c : char)
    (mid e : str) :
  dir = [] \/ ends_in is_sep dir = true ->
  existsb is_sep (dots ++ c :: mid ++ extsep :: e) = false ->
  forallb (N.eqb extsep) dots = true ->
  N.eqb c extsep = false ->
  existsb (N.eqb extsep) e = false ->
  is_ascii e = true ->
  load (dir ++ dots ++ c :: mid ++ extsep :: e) =
  if eqb_str (ascii_lower e) (of_string "pdf") then
    _load_pdf_text page pdf_pages extract_text
      (dir ++ dots ++ c :: mid ++ extsep :: e)
  else if eqb_str (ascii_lower e) (of_string "docx") then
    _load_docx_text docx2txt_process (dir ++ dots ++ c :: mid ++ extsep :: e)
  else Raised (unsupported (extsep :: ascii_lower e)).
Proof.
  intros Hdir Hsep Hdots Hc He Hascii. unfold load, load_resume_text.
  rewrite splitext_ext_named by assumption.
  rewrite lower_ascii by (simpl; exact Hascii).
  change (ascii_lower (extsep :: e)) with (extsep :: ascii_lower e).
  change (of_string ".pdf") with (extsep :: of_string "pdf").
  change (of_string ".docx") with (extsep :: of_string "docx").
  cbn [eqb_str]. rewrite N.eqb_refl. reflexivity.
Qed.

(** X14 -- A file name without extension is refused before any reader is called:
    a name without period, and a name such as ".pdf" in which only leading
    periods occur.  The orchestrator then raises the same error and the
    service is not called. *)
Theorem load_resume_text_without_extension (dir dots name : str)
    (llm : str -> outcome str) (job_description : str) :
  dir = [] \/ ends_in is_sep dir = true ->
  existsb is_sep (dots ++ name) = false ->
  forallb (N.eqb extsep) dots = true ->
  existsb (N.eqb extsep) name = false ->
  load (dir ++ dots ++ name) = Raised (unsupported [])
  /\ tailor_resume_file load llm (dir ++ dots ++ name) job_description
     = Raised (unsupported []).
Proof.
  intros Hdir Hsep Hdots Hname.
  assert (Hload : load (dir ++ dots ++ name) = Raised (unsupported [])).
  { unfold load, load_resume_text, splitext_ext.
    rewrite basename_app by assumption.
    rewrite drop_dots_app; [|assumption|].
    - rewrite (last_dot_suffix_none name Hname).
      now rewrite (lower_ascii []).
    - destruct name as [|d name]; [exact I|]. cbn [existsb] in Hname.
      apply orb_false_iff in Hname as [Hd _]. now rewrite N.eqb_sym. }
  split; [exact Hload|].
  unfold tailor_resume_file. now rewrite Hload.
Qed.

End Loader.

Lemma load_resume_text_by_extension_witness :
  load_resume_text (fun c => N.eqb c 0x2F%N) ascii_lower unit
    (fun _ => Ok [tt; tt]) (fun _ => Ok (Some (of_string "page")))
    (fun _ => Raised (of_string "not a docx"))
    (of_string "/tmp/uploads/Resume.v2.PDF")
  = Ok (text ["page"; "page"]).
Proof.
  exact (load_resume_text_by_extension (fun c => N.eqb c 0x2F%N) ascii_lower
           unit (fun _ => Ok [tt; tt]) (fun _ => Ok (Some (of_string "page")))
           (fun _ => Raised (of_string "not a docx"))
           (fun s _ => eq_refl)
           (of_string "/tmp/uploads/") [] 0x52%N (of_string "esume.v2")
           (of_string "PDF")
           (or_intror eq_refl) eq_refl eq_refl eq_refl eq_refl eq_refl).
Defined.

Lemma load_resume_text_without_extension_witness :
  load_resume_text (fun c => N.eqb c 0x2F%N) ascii_lower unit
    (fun _ => Ok [tt]) (fun _ => Ok None) (fun p => Ok p)
    (of_string "/home/jane/.pdf")
  = Raised (of_string
      "Unsupported resume format: . Please provide a .pdf or .docx file.").
Proof.
  exact (proj1 (load_resume_text_without_extension
                  (fun c => N.eqb c 0x2F%N)
                  ascii_lower unit (fun _ => Ok [tt]) (fun _ => Ok None)
                  (fun p => Ok p) (fun s _ => eq_refl)
                  (of_string "/home/jane/") [extsep] (of_string "pdf")
                  (fun p => Ok p) []
                  (or_intror eq_refl) eq_refl eq_refl eq_refl)).
Defined.
